(** * Session store and split-view layout of shelltree

    A shallow embedding of [src/src/stores/sessionStore.ts] (the zustand
    session store) and of the pane-size logic of
    [src/src/components/Terminal/SplitTerminalView.tsx].

    - A JS [Map] is an association list kept in insertion order:
      [Map.set] on a present key replaces the entry in place, on a fresh
      key it appends; [Map.keys]/[Map.values] list the entries in order.
    - The process host ([src/lib/tauri.ts], invoked over IPC) is a stream
      of replies: every awaited host call appends its command to a log and
      consumes the next reply; a failing reply rejects the promise, which
      is an exception in the store's async action.
    - An async action runs to completion before the next one starts
      (the interleaving of awaits of different actions is not modelled).
    - Pane sizes are JS numbers; they are modelled as rationals [Q]. *)

From Stdlib Require Import String Ascii List Bool ZArith QArith Qfield Lia Lqa Permutation.
Import ListNotations.
Local Open Scope string_scope.
Local Open Scope list_scope.

(** ** JS values *)

(** [x || d] for a nullable string: [null], [undefined] and [""] are falsy. *)
Definition js_or (x d : option string) : option string :=
  match x with
  | Some s => if String.eqb s "" then d else Some s
  | None => d
  end.

(** Truthiness of a nullable string. *)
Definition truthy (x : option string) : bool :=
  match x with Some s => negb (String.eqb s "") | None => false end.

(** [a === b] on [string | null]. *)
Definition opt_eqb (a b : option string) : bool :=
  match a, b with
  | Some x, Some y => String.eqb x y
  | None, None => true
  | _, _ => false
  end.

(** ** JS [Map<string, V>] *)

Section JsMap.
Context {V : Type}.

Fixpoint map_get (k : string) (m : list (string * V)) : option V :=
  match m with
  | [] => None
  | (k', v) :: m' => if String.eqb k' k then Some v else map_get k m'
  end.

Definition map_has (k : string) (m : list (string * V)) : bool :=
  match map_get k m with Some _ => true | None => false end.

Fixpoint map_replace (k : string) (v : V) (m : list (string * V))
  : list (string * V) :=
  match m with
  | [] => []
  | (k', v') :: m' =>
      if String.eqb k' k then (k', v) :: m' else (k', v') :: map_replace k v m'
  end.

Definition map_set (k : string) (v : V) (m : list (string * V))
  : list (string * V) :=
  if map_has k m then map_replace k v m else m ++ [(k, v)].

Definition map_delete (k : string) (m : list (string * V)) : list (string * V) :=
  filter (fun p => negb (String.eqb (fst p) k)) m.

Definition map_keys (m : list (string * V)) : list string := map fst m.
Definition map_values (m : list (string * V)) : list V := map snd m.

End JsMap.

(** ** Store data model (sessionStore.ts, lines 5-34) *)

Inductive SessionStatus := running | stopped | error.

(** [terminal] (an xterm handle, only disposed on deletion) is left out. *)
Record Session := mkSession {
  sid : string;
  sname : string;
  sgroupId : option string;
  shell : string;
  status : SessionStatus
}.

Record SessionGroup := mkGroup {
  gid : string;
  gname : string;
  collapsed : bool;
  order : Z
}.

Inductive SplitDirection := horizontal | vertical.

Record SplitView := mkSplitView {
  enabled : bool;
  sessionIds : list string;
  direction : SplitDirection
}.

Record Store := mkStore {
  sessions : list (string * Session);
  groups : list (string * SessionGroup);
  activeSessionId : option string;
  isLoading : bool;
  splitView : SplitView
}.

Definition initialStore : Store :=
  mkStore [] [] None false (mkSplitView false [] vertical).

(** zustand [set({...})] merges the given fields into the state. *)
Definition set_sessions (m : list (string * Session)) (st : Store) : Store :=
  mkStore m st.(groups) st.(activeSessionId) st.(isLoading) st.(splitView).
Definition set_groups (m : list (string * SessionGroup)) (st : Store) : Store :=
  mkStore st.(sessions) m st.(activeSessionId) st.(isLoading) st.(splitView).
Definition set_active (a : option string) (st : Store) : Store :=
  mkStore st.(sessions) st.(groups) a st.(isLoading) st.(splitView).
Definition set_loading (b : bool) (st : Store) : Store :=
  mkStore st.(sessions) st.(groups) st.(activeSessionId) b st.(splitView).
Definition set_split (sv : SplitView) (st : Store) : Store :=
  mkStore st.(sessions) st.(groups) st.(activeSessionId) st.(isLoading) sv.

(** ** Process host (src/lib/tauri.ts) *)

Inductive HostStatus := Running | Stopped | Error (message : string).

Record SessionInfo := mkInfo {
  info_id : string;
  info_name : string;
  group_id : option string;
  info_shell : string;
  cwd : string;
  info_status : HostStatus
}.

Record AppState := mkAppState {
  saved_sessions : list SessionInfo;
  saved_groups : list SessionGroup;
  active_session_id : option string
}.

Inductive Cmd :=
| CCreateSession (name : string) (cwd : option string) (groupId : option string)
| CDeleteSession (id : string)
| CRenameSession (id name : string)
| CSetActiveSession (id : option string)
| CSetSessionGroup (id : string) (groupId : option string)
| CCreateGroup (name : string)
| CDeleteGroup (id : string)
| CRenameGroup (id name : string)
| CToggleGroupCollapsed (id : string)
| CSaveLayout
| CLoadLayout.

(** A host reply; [RFail] is a rejected [invoke]. *)
Inductive Reply :=
| RFail
| RUnit
| RSessionInfo (info : SessionInfo)
| RGroup (g : SessionGroup)
| RBool (b : bool)
| RAppState (s : option AppState).

Record World := mkWorld {
  store : Store;
  replies : list Reply;
  log : list Cmd
}.

(** ** A state-and-exception monad for the async actions *)

Definition M (A : Type) : Type := World -> option A * World.

Definition ret {A} (a : A) : M A := fun w => (Some a, w).
Definition throw {A} : M A := fun w => (None, w).
Definition bind {A B} (m : M A) (k : A -> M B) : M B :=
  fun w => match m w with
           | (Some a, w') => k a w'
           | (None, w') => (None, w')
           end.

Notation "x <- m ;; k" := (bind m (fun x => k))
  (at level 61, m at next level, right associativity).
Notation "m ;;; k" := (bind m (fun _ => k))
  (at level 61, right associativity).

Definition get : M Store := fun w => (Some w.(store), w).
Definition modify (f : Store -> Store) : M unit :=
  fun w => (Some tt, mkWorld (f w.(store)) w.(replies) w.(log)).

(** [try { m } catch { h }] *)
Definition catch {A} (m : M A) (h : M A) : M A :=
  fun w => match m w with
           | (None, w') => h w'
           | r => r
           end.

(** [await invoke(c)]: log the command, consume the next reply. *)
Definition host (c : Cmd) : M Reply :=
  fun w =>
    let lg := w.(log) ++ [c] in
    match w.(replies) with
    | [] => (None, mkWorld w.(store) [] lg)
    | RFail :: rs => (None, mkWorld w.(store) rs lg)
    | r :: rs => (Some r, mkWorld w.(store) rs lg)
    end.

(** A call whose promise is not awaited ([tauri.setActiveSession]). *)
Definition fire (c : Cmd) : M unit :=
  fun w => (Some tt, mkWorld w.(store) w.(replies) (w.(log) ++ [c])).

(** The TS types fix the shape of each reply; another shape is a failure. *)
Definition expect_unit (r : Reply) : M unit :=
  match r with RUnit => ret tt | _ => throw end.
Definition expect_info (r : Reply) : M SessionInfo :=
  match r with RSessionInfo i => ret i | _ => throw end.
Definition expect_group (r : Reply) : M SessionGroup :=
  match r with RGroup g => ret g | _ => throw end.
Definition expect_bool (r : Reply) : M bool :=
  match r with RBool b => ret b | _ => throw end.
Definition expect_state (r : Reply) : M (option AppState) :=
  match r with RAppState s => ret s | _ => throw end.

(** [for (const x of xs) await f(x)] *)
Fixpoint for_each {A} (xs : list A) (f : A -> M unit) : M unit :=
  match xs with
  | [] => ret tt
  | x :: xs' => f x ;;; for_each xs' f
  end.

(** ** Store actions (sessionStore.ts) *)

(** [getSessionsInGroup] (lines 417-420) *)
Definition getSessionsInGroup (g : option string) (st : Store) : list Session :=
  filter (fun s => opt_eqb s.(sgroupId) g) (map_values st.(sessions)).

Definition update_session (id : string) (f : Session -> Session)
    (m : list (string * Session)) : list (string * Session) :=
  match map_get id m with
  | Some s => map_set id (f s) m
  | None => m
  end.

Definition update_group (id : string) (f : SessionGroup -> SessionGroup)
    (m : list (string * SessionGroup)) : list (string * SessionGroup) :=
  match map_get id m with
  | Some g => map_set id (f g) m
  | None => m
  end.

Definition session_of_info (info : SessionInfo) : Session :=
  mkSession info.(info_id) info.(info_name) info.(group_id) info.(info_shell) running.

(** [createSession] (lines 79-97) *)
Definition createSession (name : string) (groupId : option string) : M string :=
  r <- host (CCreateSession name None groupId) ;;
  info <- expect_info r ;;
  let session := session_of_info info in
  modify (fun st => set_active (Some session.(sid))
                      (set_sessions (map_set session.(sid) session st.(sessions)) st)) ;;;
  ret session.(sid).

(** The state update of [deleteSession] (lines 102-123). *)
Definition delete_update (id : string) (st : Store) : Store :=
  let sessions' := map_delete id st.(sessions) in
  let newActiveId :=
    if opt_eqb st.(activeSessionId) (Some id) then
      match map_keys sessions' with k :: _ => Some k | [] => None end
    else st.(activeSessionId) in
  let newSplitSessionIds :=
    filter (fun x => negb (String.eqb x id)) st.(splitView).(sessionIds) in
  let splitView' :=
    if Nat.ltb (length newSplitSessionIds) 2
    then mkSplitView false [] vertical
    else mkSplitView st.(splitView).(enabled) newSplitSessionIds
                     st.(splitView).(direction) in
  mkStore sessions' st.(groups) newActiveId st.(isLoading) splitView'.

(** [deleteSession] (lines 99-124) *)
Definition deleteSession (id : string) : M unit :=
  r <- host (CDeleteSession id) ;; expect_unit r ;;;
  modify (delete_update id).

(** [renameSession] (lines 126-137) *)
Definition renameSession (id name : string) : M unit :=
  r <- host (CRenameSession id name) ;; expect_unit r ;;;
  modify (fun st => set_sessions (update_session id
            (fun s => mkSession s.(sid) name s.(sgroupId) s.(shell) s.(status))
            st.(sessions)) st).

(** [setActiveSession] (lines 139-142): the host call is not awaited. *)
Definition setActiveSession (id : option string) : M unit :=
  modify (set_active id) ;;; fire (CSetActiveSession id).

(** [updateSessionStatus] (lines 155-164) *)
Definition updateSessionStatus (id : string) (s' : SessionStatus) : M unit :=
  modify (fun st => set_sessions (update_session id
            (fun s => mkSession s.(sid) s.(sname) s.(sgroupId) s.(shell) s')
            st.(sessions)) st).

(** [setSessionGroup] (lines 166-177) *)
Definition setSessionGroup (id : string) (groupId : option string) : M unit :=
  r <- host (CSetSessionGroup id groupId) ;; expect_unit r ;;;
  modify (fun st => set_sessions (update_session id
            (fun s => mkSession s.(sid) s.(sname) groupId s.(shell) s.(status))
            st.(sessions)) st).

(** [createGroup] (lines 179-194) *)
Definition createGroup (name : string) : M string :=
  r <- host (CCreateGroup name) ;;
  g <- expect_group r ;;
  modify (fun st => set_groups
            (map_set g.(gid) (mkGroup g.(gid) g.(gname) g.(collapsed) g.(order))
               st.(groups)) st) ;;;
  ret g.(gid).

(** [deleteGroup] (lines 196-210) *)
Definition deleteGroup (id : string) : M unit :=
  r <- host (CDeleteGroup id) ;; expect_unit r ;;;
  st <- get ;;
  for_each (getSessionsInGroup (Some id) st)
    (fun s => setSessionGroup s.(sid) None) ;;;
  modify (fun st => set_groups (map_delete id st.(groups)) st).

(** [renameGroup] (lines 212-223) *)
Definition renameGroup (id name : string) : M unit :=
  r <- host (CRenameGroup id name) ;; expect_unit r ;;;
  modify (fun st => set_groups (update_group id
            (fun g => mkGroup g.(gid) name g.(collapsed) g.(order))
            st.(groups)) st).

(** [toggleGroupCollapsed] (lines 225-236) *)
Definition toggleGroupCollapsed (id : string) : M unit :=
  r <- host (CToggleGroupCollapsed id) ;;
  c <- expect_bool r ;;
  modify (fun st => set_groups (update_group id
            (fun g => mkGroup g.(gid) g.(gname) c g.(order))
            st.(groups)) st).

(** [enableSplitView] (lines 239-249) *)
Definition enableSplitView (ids : list string) (dir : SplitDirection) : M unit :=
  if Nat.ltb (length ids) 2 then ret tt
  else modify (fun st => set_active (hd_error ids)
                           (set_split (mkSplitView true ids dir) st)).

(** [disableSplitView] (lines 251-261) *)
Definition disableSplitView : M unit :=
  st <- get ;;
  modify (fun st' => set_active
            (js_or (hd_error st.(splitView).(sessionIds)) st.(activeSessionId))
            (set_split (mkSplitView false [] vertical) st')).

(** [addToSplit] (lines 263-287) *)
Definition addToSplit (id : string) : M unit :=
  st <- get ;;
  let sv := st.(splitView) in
  if negb (map_has id st.(sessions)) then ret tt
  else if negb sv.(enabled) then
    match st.(activeSessionId) with
    | Some a =>
        if truthy (Some a) && negb (String.eqb a id)
        then modify (set_split (mkSplitView true [a; id] vertical))
        else ret tt
    | None => ret tt
    end
  else if existsb (fun x => String.eqb x id) sv.(sessionIds) then ret tt
  else modify (set_split (mkSplitView sv.(enabled) (sv.(sessionIds) ++ [id])
                                      sv.(direction))).

(** [removeFromSplit] (lines 289-311) *)
Definition removeFromSplit (id : string) : M unit :=
  st <- get ;;
  let sv := st.(splitView) in
  let newSessionIds := filter (fun x => negb (String.eqb x id)) sv.(sessionIds) in
  if Nat.ltb (length newSessionIds) 2 then
    modify (fun st' => set_active (js_or (hd_error newSessionIds) None)
                         (set_split (mkSplitView false [] vertical) st'))
  else modify (set_split (mkSplitView sv.(enabled) newSessionIds sv.(direction))).

(** [setSplitDirection] (lines 313-320) *)
Definition setSplitDirection (d : SplitDirection) : M unit :=
  modify (fun st => set_split (mkSplitView st.(splitView).(enabled)
                                 st.(splitView).(sessionIds) d) st).

(** [splitGroup] (lines 322-335) *)
Definition splitGroup (groupId : string) (dir : SplitDirection) : M unit :=
  st <- get ;;
  let sessionsInGroup := getSessionsInGroup (Some groupId) st in
  if Nat.ltb (length sessionsInGroup) 2 then ret tt
  else
    let ids := map sid sessionsInGroup in
    modify (fun st' => set_active (hd_error ids)
                         (set_split (mkSplitView true ids dir) st')).

(** [saveLayout] (lines 337-339) *)
Definition saveLayout : M unit :=
  r <- host CSaveLayout ;; expect_unit r.

(** The body of the restore loop of [loadLayout] (lines 368-399): one
    saved session, the [firstSessionId] so far in, the new one out. *)
Definition restore_one (saved : SessionInfo) (firstSessionId : option string)
  : M (option string) :=
  catch
    (r <- host (CCreateSession saved.(info_name) (Some saved.(cwd))
                  (js_or saved.(group_id) None)) ;;
     info <- expect_info r ;;
     let session := session_of_info info in
     modify (fun s => set_sessions (map_set session.(sid) session s.(sessions)) s) ;;;
     ret (if truthy firstSessionId then firstSessionId else Some session.(sid)))
    (ret firstSessionId).

Fixpoint restore_loop (saved : list SessionInfo) (firstSessionId : option string)
  : M (option string) :=
  match saved with
  | [] => ret firstSessionId
  | s :: rest => f <- restore_one s firstSessionId ;; restore_loop rest f
  end.

Definition groups_of (gs : list SessionGroup) : list (string * SessionGroup) :=
  fold_left (fun m g => map_set g.(gid) (mkGroup g.(gid) g.(gname) g.(collapsed) g.(order)) m)
    gs [].

(** [loadLayout] (lines 341-415) *)
Definition loadLayout : M unit :=
  modify (set_loading true) ;;;
  catch
    (r <- host CLoadLayout ;;
     state <- expect_state r ;;
     match state with
     | None => modify (set_loading false)
     | Some state =>
         modify (set_groups (groups_of state.(saved_groups))) ;;;
         firstSessionId <- restore_loop state.(saved_sessions) None ;;
         modify (fun s => set_loading false (set_active firstSessionId s))
     end)
    (modify (set_loading false)).

(** What is left of a running [loadLayout] at the top of an iteration of
    its restore loop: the remaining saved sessions, with the
    [firstSessionId] found so far, then the final [set] (lines 368-405). *)
Definition loadLayout_rest (saved : list SessionInfo) (firstSessionId : option string)
  : M unit :=
  f <- restore_loop saved firstSessionId ;;
  modify (fun s => set_loading false (set_active f s)).

(** ** Sequences of store actions *)

Inductive Op :=
| OCreateSession (name : string) (groupId : option string)
| ODeleteSession (id : string)
| ORenameSession (id name : string)
| OSetActiveSession (id : option string)
| OUpdateSessionStatus (id : string) (s : SessionStatus)
| OSetSessionGroup (id : string) (groupId : option string)
| OCreateGroup (name : string)
| ODeleteGroup (id : string)
| ORenameGroup (id name : string)
| OToggleGroupCollapsed (id : string)
| OEnableSplitView (ids : list string) (dir : SplitDirection)
| ODisableSplitView
| OAddToSplit (id : string)
| ORemoveFromSplit (id : string)
| OSetSplitDirection (d : SplitDirection)
| OSplitGroup (groupId : string) (dir : SplitDirection)
| OSaveLayout
| OLoadLayout.

(** The action an [Op] calls; its result (or rejection) is dropped. *)
Definition action (op : Op) : M unit :=
  match op with
  | OCreateSession n g => _ <- createSession n g ;; ret tt
  | ODeleteSession id => deleteSession id
  | ORenameSession id n => renameSession id n
  | OSetActiveSession id => setActiveSession id
  | OUpdateSessionStatus id s => updateSessionStatus id s
  | OSetSessionGroup id g => setSessionGroup id g
  | OCreateGroup n => _ <- createGroup n ;; ret tt
  | ODeleteGroup id => deleteGroup id
  | ORenameGroup id n => renameGroup id n
  | OToggleGroupCollapsed id => toggleGroupCollapsed id
  | OEnableSplitView ids d => enableSplitView ids d
  | ODisableSplitView => disableSplitView
  | OAddToSplit id => addToSplit id
  | ORemoveFromSplit id => removeFromSplit id
  | OSetSplitDirection d => setSplitDirection d
  | OSplitGroup g d => splitGroup g d
  | OSaveLayout => saveLayout
  | OLoadLayout => loadLayout
  end.

Definition exec_op (op : Op) (w : World) : World := snd (action op w).

(** The actions run one after the other, each one settled before the next
    starts; an action started while another still awaits the host is not
    covered by [run_ops] (see [loadLayout_rest] for the restore loop). *)
Fixpoint run_ops (ops : list Op) (w : World) : World :=
  match ops with
  | [] => w
  | op :: ops' => run_ops ops' (exec_op op w)
  end.

(** ** Pane sizes of the split view (SplitTerminalView.tsx) *)

(** [sessionIds.map(() => 100 / sessionIds.length)] (lines 24-26, 32) *)
Definition equal_shares (ids : list string) : list Q :=
  map (fun _ => (100 # 1) / inject_Z (Z.of_nat (length ids)))%Q ids.

(** The component's [paneSizes] state together with the dependency value
    [sessionIds.length] its reset effect (lines 31-33) last ran with. *)
Record PaneView := mkPaneView {
  paneSizes : list Q;
  depsLen : nat
}.

(** Mounting: the [useState] initialiser; the mount-time run of the effect
    sets the same value. *)
Definition mount (ids : list string) : PaneView :=
  mkPaneView (equal_shares ids) (length ids).

(** A render with new props reads the current [paneSizes]: this is what the
    panes are laid out with ([paneSizes[index]], lines 143-145). *)
Definition render (v : PaneView) (ids : list string) : list string * list Q :=
  (ids, v.(paneSizes)).

(** After the render the effect runs when [sessionIds.length] changed. *)
Definition effect (v : PaneView) (ids : list string) : PaneView :=
  if Nat.eqb (length ids) v.(depsLen) then v
  else mkPaneView (equal_shares ids) (length ids).

Inductive SplitOp := SAdd (id : string) | SRemove (id : string).

Definition split_action (o : SplitOp) : M unit :=
  match o with SAdd id => addToSplit id | SRemove id => removeFromSplit id end.

(** One store call followed by the re-render of the view with the store's
    [splitView.sessionIds] as its props and the effect after it. *)
Definition split_step (o : SplitOp) (wv : World * PaneView) : World * PaneView :=
  let w' := snd (split_action o (fst wv)) in
  (w', effect (snd wv) w'.(store).(splitView).(sessionIds)).

Fixpoint split_run (os : list SplitOp) (wv : World * PaneView) : World * PaneView :=
  match os with
  | [] => wv
  | o :: os' => split_run os' (split_step o wv)
  end.

(** JS [array[i] = x] for an index inside the array. *)
Fixpoint set_nth {A} (i : nat) (x : A) (l : list A) : list A :=
  match l, i with
  | [], _ => []
  | _ :: l', O => x :: l'
  | y :: l', S i' => y :: set_nth i' x l'
  end.

Definition qmax (a b : Q) : Q := if Qle_bool a b then b else a.
Definition qmin (a b : Q) : Q := if Qle_bool a b then a else b.

Fixpoint sum_first (n : nat) (l : list Q) : Q :=
  match n, l with
  | O, _ => 0
  | _, [] => 0
  | S n', x :: l' => x + sum_first n' l'
  end%Q.

(** [handleMouseMove] (lines 42-66) for the divider [resizingIndex], with
    [frac] the pointer position as a fraction of the container extent
    ([mousePos / totalSize]).  Dividers are rendered only between panes
    (line 185), so [resizingIndex + 1] is an index of [paneSizes]. *)
Definition handleMouseMove (paneSizes : list Q) (resizingIndex : nat) (frac : Q)
  : list Q :=
  let mousePercent := (frac * (100 # 1))%Q in
  let cumulative := sum_first resizingIndex paneSizes in
  let newSize := qmax (10 # 1) (qmin (90 # 1) (mousePercent - cumulative)) in
  let diff := (newSize - nth resizingIndex paneSizes 0)%Q in
  let newSizes := set_nth resizingIndex newSize paneSizes in
  set_nth (S resizingIndex)
    (qmax (10 # 1) (nth (S resizingIndex) paneSizes 0 - diff)) newSizes.

(** ** Store properties and example data used by the proofs *)

Local Open Scope nat_scope.

(** [m] keeps the store property [P]. *)
Definition preserves (P : Store -> Prop) {A} (m : M A) : Prop :=
  forall w, P (store w) -> P (store (snd (m w))).

(** The split-view shape: empty and disabled, or at least two members and
    enabled. *)
Definition split_shape (st : Store) : Prop :=
  (st.(splitView).(sessionIds) = [] /\ st.(splitView).(enabled) = false) \/
  (2 <= length st.(splitView).(sessionIds) /\ st.(splitView).(enabled) = true).

Definition active_ok (st : Store) : Prop :=
  match st.(activeSessionId) with
  | None => True
  | Some a => In a (map_keys st.(sessions))
  end.

Definition split_ok (st : Store) : Prop :=
  Forall (fun i => In i (map_keys st.(sessions))) st.(splitView).(sessionIds).

(** Every registry entry is stored under its own id. *)
Definition ids_ok (st : Store) : Prop :=
  Forall (fun p => (snd p).(sid) = fst p) st.(sessions).

Definition ref_inv (st : Store) : Prop := active_ok st /\ split_ok st /\ ids_ok st.

Definition first_ok (f : option string) (st : Store) : Prop :=
  match f with None => True | Some a => In a (map_keys st.(sessions)) end.

Definition arg_ok (op : Op) (st : Store) : Prop :=
  match op with
  | OSetActiveSession (Some a) => In a (map_keys st.(sessions))
  | OEnableSplitView ids _ => Forall (fun i => In i (map_keys st.(sessions))) ids
  | _ => True
  end.

Fixpoint ops_ok (ops : list Op) (w : World) : Prop :=
  match ops with
  | [] => True
  | op :: ops' => arg_ok op (store w) /\ ops_ok ops' (exec_op op w)
  end.

Definition demo_session (id : string) (g : option string) : Session :=
  mkSession id id g "/bin/zsh" running.

(** Sessions ["a"] and ["b"] in group ["g"], session ["c"] ungrouped. *)
Definition demo_store : Store :=
  mkStore [("a", demo_session "a" (Some "g")); ("b", demo_session "b" (Some "g"));
           ("c", demo_session "c" None)]
          [("g", mkGroup "g" "G" false 0%Z)] (Some "c") false
          (mkSplitView false [] vertical).

(** The record update of [setSessionGroup(id, null)]. *)
Definition ungroup (s : Session) : Session :=
  mkSession s.(sid) s.(sname) None s.(shell) s.(status).

Definition ungroup_members (id : string) (m : list (string * Session))
  : list (string * Session) :=
  map (fun p => if opt_eqb (snd p).(sgroupId) (Some id)
                then (fst p, ungroup (snd p)) else p) m.

Definition ungrouped (s : Session) : bool :=
  match s.(sgroupId) with None => true | Some _ => false end.

(** [update_session] on a registry with distinct keys, as a pointwise map. *)
Definition upd_at (k : string) (f : Session -> Session) (p : string * Session)
  : string * Session :=
  if String.eqb (fst p) k then (fst p, f (snd p)) else p.

(** All the re-parentings of [deleteGroup] at once. *)
Definition ungroup_by (L : list Session) (p : string * Session) : string * Session :=
  if existsb (fun s => String.eqb (fst p) s.(sid)) L then (fst p, ungroup (snd p))
  else p.

(** The view agrees with the ids it last ran its effect for. *)
Definition view_ok (v : PaneView) (ids : list string) : Prop :=
  length v.(paneSizes) = v.(depsLen) /\ v.(depsLen) = length ids.

(** Split members ["a"; "b"] over [demo_store]. *)
Definition demo_split_world : World :=
  mkWorld (set_split (mkSplitView true ["a"; "b"] vertical) demo_store) [] [].

(** The host reply for one saved session: the new session's info, or a
    rejection. *)
Definition reply_of (o : option SessionInfo) : Reply :=
  match o with Some i => RSessionInfo i | None => RFail end.

(** The [tauri.createSession] call of the restore loop for one entry. *)
Definition create_cmd (s : SessionInfo) : Cmd :=
  CCreateSession s.(info_name) (Some s.(cwd)) (js_or s.(group_id) None).

(** The infos of the successful creations, in order. *)
Fixpoint somes (outs : list (option SessionInfo)) : list SessionInfo :=
  match outs with
  | [] => []
  | Some i :: outs' => i :: somes outs'
  | None :: outs' => somes outs'
  end.

Definition insert_info (m : list (string * Session)) (i : SessionInfo)
  : list (string * Session) :=
  map_set (session_of_info i).(sid) (session_of_info i) m.

(** [if (!firstSessionId) firstSessionId = session.id] *)
Definition pick_first (f : option string) (i : SessionInfo) : option string :=
  if truthy f then f else Some i.(info_id).

(** ** App.tsx: keyboard shortcuts (lines 43-125) *)

(** [Array.prototype.indexOf] on a string array: [-1] when absent. *)
Fixpoint index_of (x : string) (l : list string) : Z :=
  match l with
  | [] => (-1)%Z
  | y :: l' =>
      if String.eqb y x then 0%Z
      else let i := index_of x l' in if Z.eqb i (-1) then (-1)%Z else (i + 1)%Z
  end.

(** [array[i]] for an integer index; [undefined] outside the array is
    [None]: the store keeps it as the active selection, and every reader
    ([!activeSessionId], [=== id], [sessions.get]) treats it as it treats
    [null]. *)
Definition js_at (l : list string) (i : Z) : option string :=
  if Z.ltb i 0 then None else nth_error l (Z.to_nat i).

(** [a <= b] on strings: code-unit lexicographic order. *)
Definition str_le (a b : string) : bool :=
  match String.compare a b with Gt => false | _ => true end.

(** The value of the longest prefix of decimal digits. *)
Fixpoint digits_value (s : string) (acc : Z) : Z :=
  match s with
  | String c s' =>
      let n := Ascii.nat_of_ascii c in
      if Nat.leb 48 n && Nat.leb n 57
      then digits_value s' (acc * 10 + Z.of_nat (n - 48))%Z
      else acc
  | EmptyString => acc
  end.

(** [parseInt(s)] for a string that starts with a decimal digit (the only
    strings it is called with: those between ["1"] and ["9"]). *)
Definition parseInt_digits (s : string) : Z := digits_value s 0.

(** The decimal form of a natural number, as in a template literal. *)
Fixpoint decimal_aux (fuel n : nat) (acc : string) : string :=
  match fuel with
  | O => acc
  | S f =>
      let acc' := String (Ascii.ascii_of_nat (48 + n mod 10)) acc in
      if Nat.ltb n 10 then acc' else decimal_aux f (n / 10) acc'
  end.

Definition decimal (n : nat) : string := decimal_aux (S n) n EmptyString.

Record KeyEvent := mkKeyEvent {
  metaKey : bool;
  shiftKey : bool;
  key : string
}.

(** What a keydown does to the store. *)
Inductive KeyAction :=
| KNewSession
| KNewGroup
| KDelete (id : string)
| KSetActive (id : option string)
| KNone.

(** [handleKeyDown], reading [sessions] and [activeSessionId] as of the
    last render. *)
Definition handleKeyDown (e : KeyEvent) (st : Store) : KeyAction :=
  let sessionIds := map_keys st.(sessions) in
  let len := Z.of_nat (length sessionIds) in
  if e.(metaKey) && String.eqb e.(key) "t" then KNewSession
  else if e.(metaKey) && String.eqb e.(key) "g" then KNewGroup
  else if e.(metaKey) && String.eqb e.(key) "w" then
    if truthy st.(activeSessionId) then
      match st.(activeSessionId) with Some a => KDelete a | None => KNone end
    else KNone
  else if e.(metaKey) && e.(shiftKey) && String.eqb e.(key) "]" then
    if Z.ltb 1 len && truthy st.(activeSessionId) then
      match st.(activeSessionId) with
      | Some a =>
          let currentIndex := index_of a sessionIds in
          let nextIndex := Z.rem (currentIndex + 1) len in
          KSetActive (js_at sessionIds nextIndex)
      | None => KNone
      end
    else KNone
  else if e.(metaKey) && e.(shiftKey) && String.eqb e.(key) "[" then
    if Z.ltb 1 len && truthy st.(activeSessionId) then
      match st.(activeSessionId) with
      | Some a =>
          let currentIndex := index_of a sessionIds in
          let prevIndex :=
            if Z.eqb currentIndex 0 then (len - 1)%Z else (currentIndex - 1)%Z in
          KSetActive (js_at sessionIds prevIndex)
      | None => KNone
      end
    else KNone
  else if e.(metaKey) && str_le "1" e.(key) && str_le e.(key) "9" then
    let index := (parseInt_digits e.(key) - 1)%Z in
    if Z.ltb index len then KSetActive (js_at sessionIds index) else KNone
  else KNone.

(** The store action a key triggers: [handleNewSession] names the session
    [Terminal ${sessions.size + 1}], [handleNewGroup] calls the group
    ["New Group"]. *)
Definition key_op (k : KeyAction) (st : Store) : option Op :=
  match k with
  | KNewSession =>
      Some (OCreateSession ("Terminal " ++ decimal (length st.(sessions) + 1)) None)
  | KNewGroup => Some (OCreateGroup "New Group")
  | KDelete a => Some (ODeleteSession a)
  | KSetActive id => Some (OSetActiveSession id)
  | KNone => None
  end.

(** A keydown delivered to the window listener.  The listener is
    re-registered on every change of [sessions] and [activeSessionId], so
    the values it closes over are those of the current store. *)
Definition on_key (e : KeyEvent) : M unit :=
  st <- get ;;
  match key_op (handleKeyDown e st) st with
  | Some op => action op
  | None => ret tt
  end.

(** ** App.tsx: sidebar resize (lines 135-138) *)

Definition sidebarWidth_of (clientX : Q) : Q := qmax (180 # 1) (qmin (400 # 1) clientX).

(** ** sessionStore.ts: [getActiveSession] (lines 422-426) *)

(** [sessions.get(id) || null]: a session object is truthy. *)
Definition getActiveSession (st : Store) : option Session :=
  if truthy st.(activeSessionId) then
    match st.(activeSessionId) with
    | Some a => map_get a st.(sessions)
    | None => None
    end
  else None.

(** ** Sidebar.tsx (Sidebar, lines 194-336; GroupItem, lines 20-183) *)

(** [Array.prototype.sort] with [(a, b) => a.order - b.order]: a stable
    sort by [order], here an insertion sort that puts each group after
    the ones with an order not above its own. *)
Fixpoint insert_by_order (g : SessionGroup) (l : list SessionGroup) : list SessionGroup :=
  match l with
  | [] => [g]
  | h :: t => if Z.leb h.(order) g.(order) then h :: insert_by_order g t else g :: l
  end.

Definition sort_by_order (gs : list SessionGroup) : list SessionGroup :=
  fold_left (fun acc g => insert_by_order g acc) gs [].

(** The session rows the sidebar shows, top to bottom: for each group in
    [sortedGroups], its sessions unless it is collapsed; then the
    ungrouped sessions. *)
Definition sidebar_sessions (st : Store) : list Session :=
  flat_map (fun g => if g.(collapsed) then [] else getSessionsInGroup (Some g.(gid)) st)
    (sort_by_order (map_values st.(groups)))
  ++ getSessionsInGroup None st.

(** ** useTerminal.ts: the PTY exit listener (lines 126-143) *)

(** The listener of the pane of [sessionId] for an exit event of [exitId]
    (the message it writes to the xterm is no store state). *)
Definition onPtyExit_listener (sessionId exitId : string) : M unit :=
  if String.eqb exitId sessionId then updateSessionStatus sessionId stopped else ret tt.

(** An exit event delivered to the listeners of the mounted panes. *)
Definition pty_exit (listeners : list string) (exitId : string) : M unit :=
  for_each listeners (fun s => onPtyExit_listener s exitId).

(** Registry keys distinct, each record under its own id, split members
    distinct. *)
Definition nodup_inv (st : Store) : Prop :=
  NoDup (map_keys st.(sessions)) /\ ids_ok st /\ NoDup st.(splitView).(sessionIds).

(** The argument condition for [nodup_inv]: [enableSplitView] gets
    distinct ids. *)
Definition nodup_arg (op : Op) : Prop :=
  match op with
  | OEnableSplitView ids _ => NoDup ids
  | _ => True
  end.

Fixpoint nodup_ops (ops : list Op) : Prop :=
  match ops with
  | [] => True
  | op :: ops' => nodup_arg op /\ nodup_ops ops'
  end.

(** * Proofs *)

(** ** List and clamp lemmas for the pane sizes *)

Lemma length_set_nth {A} (i : nat) (x : A) (l : list A) :
  length (set_nth i x l) = length l.
Proof.
  revert i; induction l as [|y l IH]; intros [|i]; simpl; auto.
Qed.

Lemma nth_set_nth_eq {A} (i : nat) (x d : A) (l : list A) :
  i < length l -> nth i (set_nth i x l) d = x.
Proof.
  revert i; induction l as [|y l IH]; intros [|i] H; simpl in *; try lia; auto.
  apply IH; lia.
Qed.

Lemma nth_set_nth_neq {A} (i j : nat) (x d : A) (l : list A) :
  i <> j -> nth j (set_nth i x l) d = nth j l d.
Proof.
  revert i j; induction l as [|y l IH]; intros [|i] [|j] H; simpl; auto;
    try congruence.
Qed.

Lemma set_nth_same {A} (i : nat) (d : A) (l : list A) :
  set_nth i (nth i l d) l = l.
Proof.
  revert i; induction l as [|y l IH]; intros [|i]; simpl; auto.
  now rewrite IH.
Qed.

Lemma set_nth_same_value {A} (i : nat) (x d : A) (l : list A) :
  nth i l d = x -> set_nth i x l = l.
Proof. intros <-; apply set_nth_same. Qed.

Lemma sum_first_set_nth (n i : nat) (x : Q) (l : list Q) :
  n <= i -> sum_first n (set_nth i x l) = sum_first n l.
Proof.
  revert n i; induction l as [|y l IH]; intros [|n] [|i] H; simpl; auto; try lia.
  rewrite IH; auto; lia.
Qed.

Lemma Forall2_Qeq_refl (l : list Q) : Forall2 Qeq l l.
Proof. induction l; constructor; auto; reflexivity. Qed.

Lemma Forall2_Qeq_set_nth (j : nat) (y : Q) (l : list Q) :
  (y == nth j l 0)%Q -> Forall2 Qeq (set_nth j y l) l.
Proof.
  revert j; induction l as [|z l IH]; intros [|j] H; simpl in *.
  - constructor.
  - constructor.
  - constructor; [exact H | apply Forall2_Qeq_refl].
  - constructor; [reflexivity | apply IH; exact H].
Qed.

Lemma qmax_ge_l (a b : Q) : (a <= qmax a b)%Q.
Proof.
  unfold qmax; destruct (Qle_bool a b) eqn:E.
  - now apply Qle_bool_iff.
  - apply Qle_refl.
Qed.

Lemma qmax_of_ge (a b : Q) : (a <= b)%Q -> qmax a b = b.
Proof.
  intros H; unfold qmax; apply Qle_bool_iff in H; now rewrite H.
Qed.

Lemma qmin_le_l (a b : Q) : (qmin a b <= a)%Q.
Proof.
  unfold qmin; destruct (Qle_bool a b) eqn:E.
  - apply Qle_refl.
  - apply Qlt_le_weak, Qnot_le_lt; intros H.
    apply Qle_bool_iff in H; congruence.
Qed.

Lemma qmax_le (a b c : Q) : (a <= c)%Q -> (b <= c)%Q -> (qmax a b <= c)%Q.
Proof. unfold qmax; destruct (Qle_bool a b); auto. Qed.

Lemma clamp_bounds (x : Q) :
  (10 # 1 <= qmax (10 # 1) (qmin (90 # 1) x) <= 90 # 1)%Q.
Proof.
  split; [apply qmax_ge_l|].
  apply qmax_le; [unfold Qle; simpl; lia | apply qmin_le_l].
Qed.

(** ** C10: the divider-resize step *)

(** C10. For every pane-size list, divider index (with a pane after it) and
    pointer fraction [frac]: the pane at the divider becomes
    [frac*100 - cumulative] clamped to [10, 90], the next pane becomes its
    old size minus the delta, clamped below at 10, no other pane and not the
    length change; and applying the step again with the same pointer
    fraction gives the same sizes (equal as numbers). *)
Theorem handleMouseMove_spec (ps : list Q) (i : nat) (frac : Q) :
  S i < length ps ->
  let ps' := handleMouseMove ps i frac in
  let newSize := qmax (10 # 1) (qmin (90 # 1) (frac * (100 # 1) - sum_first i ps)) in
  length ps' = length ps /\
  nth i ps' 0%Q = newSize /\
  (10 # 1 <= newSize <= 90 # 1)%Q /\
  nth (S i) ps' 0%Q = qmax (10 # 1) (nth (S i) ps 0 - (newSize - nth i ps 0))%Q /\
  (forall j, j <> i -> j <> S i -> nth j ps' 0%Q = nth j ps 0%Q) /\
  Forall2 Qeq (handleMouseMove ps' i frac) ps'.
Proof.
  intros Hi ps' newSize.
  assert (Hlen : length ps' = length ps)
    by (unfold ps', handleMouseMove; now rewrite !length_set_nth).
  assert (Hnth_i : nth i ps' 0%Q = newSize).
  { unfold ps', handleMouseMove.
    rewrite nth_set_nth_neq by lia.
    apply nth_set_nth_eq; lia. }
  assert (Hnth_Si : nth (S i) ps' 0%Q
                    = qmax (10 # 1) (nth (S i) ps 0 - (newSize - nth i ps 0))%Q).
  { unfold ps', handleMouseMove.
    apply nth_set_nth_eq; rewrite length_set_nth; lia. }
  split; [exact Hlen|].
  split; [exact Hnth_i|].
  split; [apply clamp_bounds|].
  split; [exact Hnth_Si|].
  split.
  { intros j Hj1 Hj2; unfold ps', handleMouseMove.
    rewrite !nth_set_nth_neq by congruence; reflexivity. }
  (* the second step *)
  assert (Hcum : sum_first i ps' = sum_first i ps).
  { unfold ps', handleMouseMove.
    rewrite !sum_first_set_nth by lia; reflexivity. }
  unfold handleMouseMove at 1.
  cbv zeta.
  rewrite Hcum.
  fold newSize.
  rewrite Hnth_i, (set_nth_same_value i newSize 0%Q ps' Hnth_i).
  apply Forall2_Qeq_set_nth.
  set (p := nth (S i) ps' 0%Q).
  assert (Hp : (10 # 1 <= p)%Q) by (unfold p; rewrite Hnth_Si; apply qmax_ge_l).
  assert (Heq : (p - (newSize - newSize) == p)%Q) by ring.
  rewrite qmax_of_ge.
  - exact Heq.
  - rewrite Heq; exact Hp.
Qed.

(** ** JS map lemmas *)

Lemma map_get_In {V} (k : string) (v : V) (m : list (string * V)) :
  map_get k m = Some v -> In (k, v) m.
Proof.
  induction m as [|[k' v'] m IH]; simpl; [discriminate|].
  destruct (String.eqb_spec k' k) as [->|]; intros H.
  - inversion H; auto.
  - auto.
Qed.

Lemma map_get_delete {V} (k : string) (m : list (string * V)) :
  map_get k (map_delete k m) = None.
Proof.
  induction m as [|[k' v'] m IH]; simpl; auto.
  destruct (String.eqb_spec k' k) as [->|Hne]; simpl.
  - exact IH.
  - destruct (String.eqb_spec k' k); [contradiction|exact IH].
Qed.

Lemma filter_not_In (id : string) (l : list string) :
  ~ In id (filter (fun x => negb (String.eqb x id)) l).
Proof.
  rewrite filter_In; intros [_ H].
  now rewrite String.eqb_refl in H.
Qed.

(** ** C1: removeFromSplit *)

(** C1 (code bug). With the split view disabled and a session ["a"]
    active, [removeFromSplit "x"] leaves no member, and the active
    selection is then set to null ([newSessionIds[0] || null]) instead of
    being kept at ["a"].  Its sibling [disableSplitView] keeps the prior
    selection in the same state ([sessionIds[0] || get().activeSessionId]). *)
Lemma removeFromSplit_drops_prior_active :
  let w := mkWorld (mkStore [] [] (Some "a") false (mkSplitView false [] vertical))
             [] [] in
  (store w).(activeSessionId) = Some "a" /\
  (store (snd (removeFromSplit "x" w))).(activeSessionId) = None /\
  (store (snd (disableSplitView w))).(activeSessionId) = Some "a".
Proof. split; [|split]; reflexivity. Qed.

(** ** C8: deleteSession *)

(** C8. When the host confirms the deletion, [deleteSession id] removes
    the record of [id]; if [id] was active the selection falls back to a
    remaining session (never null while one remains) or to null when none
    remains, otherwise it is unchanged; [id] leaves the split membership,
    and the split view is disabled and emptied when fewer than two members
    remain. *)
Theorem deleteSession_spec (id : string) (st : Store) (rs : list Reply)
    (lg : list Cmd) :
  let w := mkWorld st (RUnit :: rs) lg in
  let st' := store (snd (deleteSession id w)) in
  let newSplit := filter (fun x => negb (String.eqb x id)) st.(splitView).(sessionIds) in
  fst (deleteSession id w) = Some tt /\
  st'.(sessions) = map_delete id st.(sessions) /\
  map_get id st'.(sessions) = None /\
  (st.(activeSessionId) = Some id ->
     (st'.(sessions) <> [] ->
        exists k, st'.(activeSessionId) = Some k /\ In k (map_keys st'.(sessions))) /\
     (st'.(sessions) = [] -> st'.(activeSessionId) = None)) /\
  (st.(activeSessionId) <> Some id -> st'.(activeSessionId) = st.(activeSessionId)) /\
  ~ In id st'.(splitView).(sessionIds) /\
  (length newSplit < 2 -> st'.(splitView) = mkSplitView false [] vertical) /\
  (2 <= length newSplit ->
     st'.(splitView).(sessionIds) = newSplit /\
     st'.(splitView).(enabled) = st.(splitView).(enabled)).
Proof.
  intros w st' newSplit.
  assert (Hst' : st' = delete_update id st) by reflexivity.
  assert (Hres : fst (deleteSession id w) = Some tt) by reflexivity.
  rewrite Hst'; clear Hst'.
  unfold delete_update; cbn -[filter map_delete].
  fold newSplit.
  split; [exact Hres|].
  split; [reflexivity|].
  split; [apply map_get_delete|].
  split.
  { intros Ha; rewrite Ha; cbn; rewrite String.eqb_refl.
    split.
    - destruct (map_delete id (sessions st)) as [|[k v] m]; [contradiction|].
      intros _; exists k; split; [reflexivity|left; reflexivity].
    - intros ->; reflexivity. }
  split.
  { intros Ha.
    destruct (activeSessionId st) as [a|]; cbn; [|reflexivity].
    destruct (String.eqb_spec a id) as [->|]; [contradiction|reflexivity]. }
  destruct (Nat.leb_spec (length newSplit) 1) as [Hlt|Hge]; cbn.
  - split; [intros []|]. split; [reflexivity|]. intros; lia.
  - split; [apply filter_not_In|]. split; [intros; lia|]. auto.
Qed.

(** ** Store invariants preserved by actions *)

Section Preservation.
Variable P : Store -> Prop.

Lemma pres_ret {A} (a : A) : preserves P (ret a).
Proof. intros w H; exact H. Qed.

Lemma pres_throw {A} : preserves P (@throw A).
Proof. intros w H; exact H. Qed.

Lemma pres_get : preserves P get.
Proof. intros w H; exact H. Qed.

Lemma pres_host (c : Cmd) : preserves P (host c).
Proof.
  intros w H; unfold host.
  destruct (replies w) as [|[] rs]; exact H.
Qed.

Lemma pres_fire (c : Cmd) : preserves P (fire c).
Proof. intros w H; exact H. Qed.

Lemma pres_bind {A B} (m : M A) (k : A -> M B) :
  preserves P m -> (forall a, preserves P (k a)) -> preserves P (bind m k).
Proof.
  intros Hm Hk w H; unfold bind.
  specialize (Hm w H).
  destruct (m w) as [[a|] w']; cbn in *; auto.
  apply Hk; exact Hm.
Qed.

Lemma pres_modify (f : Store -> Store) :
  (forall st, P st -> P (f st)) -> preserves P (modify f).
Proof. intros Hf w H; apply Hf; exact H. Qed.

Lemma pres_catch {A} (m h : M A) :
  preserves P m -> preserves P h -> preserves P (catch m h).
Proof.
  intros Hm Hh w H; unfold catch.
  specialize (Hm w H).
  destruct (m w) as [[a|] w']; cbn in *; auto.
Qed.

Lemma pres_for_each {A} (xs : list A) (f : A -> M unit) :
  (forall x, preserves P (f x)) -> preserves P (for_each xs f).
Proof.
  intros Hf; induction xs as [|x xs IH]; cbn.
  - apply pres_ret.
  - apply pres_bind; auto.
Qed.

Lemma pres_expect_unit r : preserves P (expect_unit r).
Proof. destruct r; cbn; first [apply pres_ret | apply pres_throw]. Qed.
Lemma pres_expect_info r : preserves P (expect_info r).
Proof. destruct r; cbn; first [apply pres_ret | apply pres_throw]. Qed.
Lemma pres_expect_group r : preserves P (expect_group r).
Proof. destruct r; cbn; first [apply pres_ret | apply pres_throw]. Qed.
Lemma pres_expect_bool r : preserves P (expect_bool r).
Proof. destruct r; cbn; first [apply pres_ret | apply pres_throw]. Qed.
Lemma pres_expect_state r : preserves P (expect_state r).
Proof. destruct r; cbn; first [apply pres_ret | apply pres_throw]. Qed.

End Preservation.

Ltac pres :=
  repeat (cbv zeta;
    match goal with
    | |- preserves _ (bind _ _) => apply pres_bind; [|intro]
    | |- preserves _ (ret _) => apply pres_ret
    | |- preserves _ throw => apply pres_throw
    | |- preserves _ get => apply pres_get
    | |- preserves _ (host _) => apply pres_host
    | |- preserves _ (fire _) => apply pres_fire
    | |- preserves _ (expect_unit _) => apply pres_expect_unit
    | |- preserves _ (expect_info _) => apply pres_expect_info
    | |- preserves _ (expect_group _) => apply pres_expect_group
    | |- preserves _ (expect_bool _) => apply pres_expect_bool
    | |- preserves _ (expect_state _) => apply pres_expect_state
    | |- preserves _ (catch _ _) => apply pres_catch
    | |- preserves _ (for_each _ _) => apply pres_for_each; intro
    | |- preserves _ (modify _) => apply pres_modify; intros ?st ?Hst
    | |- preserves _ (if ?b then _ else _) => destruct b
    | |- preserves _ (match ?x with _ => _ end) => destruct x
    end).

Lemma restore_loop_pres (P : Store -> Prop) saved first :
  (forall m st, P st -> P (set_sessions m st)) ->
  preserves P (restore_loop saved first).
Proof.
  intros HP; revert first; induction saved as [|s saved IH]; intros first; cbn.
  - apply pres_ret.
  - apply pres_bind; [|intros; apply IH].
    unfold restore_one; pres; auto.
Qed.

Ltac split_cases :=
  repeat match goal with
         | |- context [if ?b then _ else _] => destruct b eqn:?
         | |- context [match ?x with Some _ => _ | None => _ end] => destruct x eqn:?
         end.

Lemma split_shape_delete_update id st :
  split_shape st -> split_shape (delete_update id st).
Proof.
  unfold split_shape, delete_update; cbv zeta.
  destruct (Nat.ltb_spec (length (filter (fun x => negb (String.eqb x id))
                                     st.(splitView).(sessionIds))) 2) as [H|H];
    cbn -[filter]; intros Hs; [left; auto|right].
  split; [exact H|].
  destruct Hs as [[He _]|[_ He]]; [|exact He].
  rewrite He in H; cbn in H; lia.
Qed.

(** Every store action keeps the split-view shape. *)
Lemma action_split_shape (op : Op) : preserves split_shape (action op).
Proof.
  destruct op; cbn [action].
  all: try (unfold createSession, deleteSession, renameSession, setActiveSession,
    updateSessionStatus, deleteGroup, setSessionGroup, createGroup, renameGroup,
    toggleGroupCollapsed, saveLayout, loadLayout; pres;
    try (apply restore_loop_pres; intros; assumption); try assumption;
    try (apply split_shape_delete_update; assumption); fail).
  all: intros [st rs lg] Hst;
    unfold enableSplitView, disableSplitView, addToSplit,
      removeFromSplit, setSplitDirection, splitGroup, bind, get, modify in *;
    cbn -[filter getSessionsInGroup] in *.
  all: unfold split_shape in *; destruct st as [ss gs act ld [en sids sdir]]; cbn -[filter getSessionsInGroup] in *.
  all: split_cases; cbn -[filter getSessionsInGroup] in *.
  all: repeat match goal with
         | H : (_ <=? _) = true |- _ => apply Nat.leb_le in H
         | H : (_ <=? _) = false |- _ => apply Nat.leb_gt in H
         | H : negb _ = true |- _ => apply negb_true_iff in H
         | H : negb _ = false |- _ => apply negb_false_iff in H
         end.
  all: destruct Hst as [[-> ->]|[Hl ->]]; cbn -[filter getSessionsInGroup] in *;
    try discriminate;
    try rewrite length_app; try rewrite length_map; cbn -[filter getSessionsInGroup] in *;
    first [ left; split; reflexivity | right; split; [lia|reflexivity] | idtac ].
Qed.

Lemma run_ops_split_shape (ops : list Op) (w : World) :
  split_shape (store w) -> split_shape (store (run_ops ops w)).
Proof.
  revert w; induction ops as [|op ops IH]; intros w H; cbn; auto.
  apply IH, action_split_shape, H.
Qed.

(** ** C2: the split-view membership is empty or has at least two ids *)

(** C2. From a store whose split view is empty and disabled or has at least
    two ids and is enabled (as the initial store), every sequence of store
    actions (the split-view actions, [deleteSession] and all the others)
    keeps it so; and [enableSplitView] with fewer than two ids leaves the
    whole state unchanged. *)
Theorem split_shape_invariant (ops : list Op) (w : World) :
  split_shape (store w) ->
  split_shape (store (run_ops ops w)) /\
  (forall ids dir, length ids < 2 -> snd (enableSplitView ids dir w) = w).
Proof.
  intros H; split.
  - apply run_ops_split_shape, H.
  - intros ids dir Hl; unfold enableSplitView.
    destruct (Nat.ltb_spec (length ids) 2); [reflexivity|lia].
Qed.

(** ** Registry references: the active selection and the split members *)

Lemma map_keys_replace {V} (k : string) (v : V) (m : list (string * V)) :
  map_keys (map_replace k v m) = map_keys m.
Proof.
  induction m as [|[k' v'] m IH]; cbn; auto.
  destruct (String.eqb k' k); cbn; auto.
  unfold map_keys in IH; now rewrite IH.
Qed.

Lemma map_has_In {V} (k : string) (m : list (string * V)) :
  map_has k m = true -> In k (map_keys m).
Proof.
  unfold map_has; destruct (map_get k m) as [v|] eqn:E; [|discriminate].
  intros _; apply map_get_In in E.
  unfold map_keys; apply in_map_iff; exists (k, v); auto.
Qed.

Lemma map_keys_set {V} (x k : string) (v : V) (m : list (string * V)) :
  In x (map_keys (map_set k v m)) <-> x = k \/ In x (map_keys m).
Proof.
  unfold map_set; destruct (map_has k m) eqn:E.
  - rewrite map_keys_replace; apply map_has_In in E.
    split; [auto|intros [->|H]; auto].
  - unfold map_keys; rewrite map_app, in_app_iff; cbn.
    split; intros [H|H]; auto.
    + destruct H as [H|[]]; auto.
Qed.

Lemma ids_ok_set (k : string) (v : Session) (m : list (string * Session)) :
  Forall (fun p => (snd p).(sid) = fst p) m -> v.(sid) = k ->
  Forall (fun p => (snd p).(sid) = fst p) (map_set k v m).
Proof.
  intros Hm Hv; unfold map_set; destruct (map_has k m).
  - induction Hm as [|[k' v'] m Hkv Hm IH]; cbn; [constructor|].
    destruct (String.eqb_spec k' k) as [->|]; constructor; auto.
  - apply Forall_app; split; auto.
Qed.

Lemma keys_grow_ref (m : list (string * Session)) (st : Store) :
  ref_inv st ->
  (forall k, In k (map_keys st.(sessions)) -> In k (map_keys m)) ->
  Forall (fun p => (snd p).(sid) = fst p) m ->
  ref_inv (set_sessions m st).
Proof.
  intros [Ha [Hs Hi]] Hk Hm; unfold ref_inv, active_ok, split_ok, ids_ok in *;
    cbn; split; [|split]; auto.
  - destruct (activeSessionId st); auto.
  - eapply Forall_impl; [|exact Hs]; auto.
Qed.

Lemma update_session_ref (id : string) (f : Session -> Session) (st : Store) :
  (forall s, (f s).(sid) = s.(sid)) ->
  ref_inv st -> ref_inv (set_sessions (update_session id f st.(sessions)) st).
Proof.
  intros Hf Hr; unfold update_session.
  destruct (map_get id (sessions st)) as [s|] eqn:E.
  - apply keys_grow_ref; auto.
    + intros k Hk; apply map_keys_set; auto.
    + destruct Hr as [_ [_ Hi]]; apply ids_ok_set; auto.
      rewrite Hf. apply map_get_In in E.
      unfold ids_ok in Hi; rewrite Forall_forall in Hi; apply (Hi _ E).
  - apply keys_grow_ref; auto. apply Hr.
Qed.

Lemma map_keys_delete {V} (x k : string) (m : list (string * V)) :
  In x (map_keys (map_delete k m)) <-> In x (map_keys m) /\ x <> k.
Proof.
  unfold map_keys, map_delete; rewrite !in_map_iff.
  split.
  - intros [[k' v] [<- Hin]]; apply filter_In in Hin as [Hin Hne]; cbn in *.
    split; [exists (k', v); auto|].
    intros ->; now rewrite String.eqb_refl in Hne.
  - intros [[[k' v] [Hx Hin]] Hne]; cbn in Hx; subst k'.
    exists (x, v); split; auto.
    apply filter_In; split; auto; cbn.
    destruct (String.eqb_spec x k); [contradiction|reflexivity].
Qed.

Lemma Forall_filter_sub {A} (P : A -> Prop) (f : A -> bool) (l : list A) :
  Forall P l -> Forall P (filter f l).
Proof.
  rewrite !Forall_forall; intros H x Hx; apply filter_In in Hx as [Hx _]; auto.
Qed.

Lemma delete_update_ref (id : string) (st : Store) :
  ref_inv st -> ref_inv (delete_update id st).
Proof.
  intros [Ha [Hs Hi]]; unfold ref_inv, active_ok, split_ok, ids_ok, delete_update in *.
  cbv zeta; cbn [activeSessionId sessions splitView sessionIds].
  split; [|split].
  - destruct (opt_eqb (activeSessionId st) (Some id)) eqn:E.
    + destruct (map_keys (map_delete id (sessions st))) as [|k ks] eqn:Ek; auto.
      left; reflexivity.
    + destruct (activeSessionId st) as [a|]; auto.
      apply map_keys_delete; split; auto.
      intros ->; cbn in E; now rewrite String.eqb_refl in E.
  - destruct (Nat.ltb (length (filter (fun x => negb (String.eqb x id))
                                 (sessionIds (splitView st)))) 2); cbn; [constructor|].
    rewrite Forall_forall in *; intros x Hx.
    apply filter_In in Hx as [Hx Hne].
    apply map_keys_delete; split; auto.
    intros ->; now rewrite String.eqb_refl in Hne.
  - now apply Forall_filter_sub.
Qed.

Lemma restore_one_ref (saved : SessionInfo) (first : option string) (w : World) :
  ref_inv (store w) -> first_ok first (store w) ->
  exists f, fst (restore_one saved first w) = Some f /\
            ref_inv (store (snd (restore_one saved first w))) /\
            first_ok f (store (snd (restore_one saved first w))).
Proof.
  intros Hr Hf.
  unfold restore_one, catch, bind, host, expect_info, ret, throw, modify.
  destruct (replies w) as [|r rs]; cbn; [eauto|].
  destruct r; cbn; eauto.
  exists (if truthy first then first else Some (sid (session_of_info info))).
  split; [reflexivity|]. split.
  - apply keys_grow_ref; auto.
    + intros k Hk; apply map_keys_set; auto.
    + apply ids_ok_set; [apply Hr | reflexivity].
  - destruct (truthy first); cbn.
    + destruct first as [a|]; cbn in *; auto.
      apply map_keys_set; auto.
    + apply map_keys_set; auto.
Qed.

Lemma restore_loop_ref (saved : list SessionInfo) (first : option string) (w : World) :
  ref_inv (store w) -> first_ok first (store w) ->
  exists f, fst (restore_loop saved first w) = Some f /\
            ref_inv (store (snd (restore_loop saved first w))) /\
            first_ok f (store (snd (restore_loop saved first w))).
Proof.
  revert first w; induction saved as [|s saved IH]; intros first w Hr Hf; cbn.
  - eauto.
  - destruct (restore_one_ref s first w Hr Hf) as [f [Hres [Hr' Hf']]].
    destruct (restore_one s first w) as [o w'] eqn:E; cbn in *; subst o.
    assert (Heq : bind (restore_one s first) (fun f => restore_loop saved f) w
                  = restore_loop saved f w') by (unfold bind; rewrite E; reflexivity).
    rewrite Heq; apply IH; auto.
Qed.

Lemma loadLayout_ref : preserves ref_inv loadLayout.
Proof.
  unfold loadLayout.
  apply pres_bind; [apply pres_modify; intros st H; exact H|intros _].
  apply pres_catch; [|apply pres_modify; intros st H; exact H].
  apply pres_bind; [apply pres_host|intros r].
  apply pres_bind; [apply pres_expect_state|intros [state|]];
    [|apply pres_modify; intros st H; exact H].
  apply pres_bind; [apply pres_modify; intros st H; exact H|intros _].
  intros w Hw; unfold bind at 1.
  destruct (restore_loop_ref (saved_sessions state) None w Hw I) as [f [Hres [Hr Hf]]].
  destruct (restore_loop (saved_sessions state) None w) as [o w'] eqn:E;
    cbn in *; subst o.
  destruct Hr as [_ [Hs Hi]]; split; [|split]; auto.
Qed.
Lemma pres_apply (P : Store -> Prop) {A} (m : M A) :
  preserves P m -> forall w, P (store w) -> P (store (snd (m w))).
Proof. intros H; exact H. Qed.

Lemma js_or_cases (x d : option string) : js_or x d = d \/ js_or x d = x.
Proof. destruct x as [s|]; cbn; auto. destruct (String.eqb s ""); auto. Qed.

Lemma hd_error_In {A} (l : list A) (x : A) : hd_error l = Some x -> In x l.
Proof. destruct l; cbn; intros H; inversion H; auto. Qed.

Lemma group_ids_keys (g : option string) (st : Store) (x : string) :
  In x (map sid (getSessionsInGroup g st)) -> ids_ok st -> In x (map_keys st.(sessions)).
Proof.
  unfold ids_ok, getSessionsInGroup, map_values, map_keys; intros Hx Hi.
  apply in_map_iff in Hx as [s [<- Hs]].
  apply filter_In in Hs as [Hs _].
  apply in_map_iff in Hs as [[k v] [Hv Hin]]; cbn in Hv; subst v.
  rewrite Forall_forall in Hi; specialize (Hi _ Hin); cbn in Hi; rewrite Hi.
  apply in_map_iff; exists (k, s); auto.
Qed.

Lemma create_ref (session : Session) (st : Store) :
  ref_inv st ->
  ref_inv (set_active (Some session.(sid))
             (set_sessions (map_set session.(sid) session st.(sessions)) st)).
Proof.
  intros Hr.
  assert (H : ref_inv (set_sessions (map_set session.(sid) session st.(sessions)) st)).
  { apply keys_grow_ref; auto.
    - intros k Hk; apply map_keys_set; auto.
    - apply ids_ok_set; [apply Hr|reflexivity]. }
  destruct H as [_ [Hs Hi]]; split; [|split]; auto.
  unfold active_ok; cbn; apply map_keys_set; auto.
Qed.

Lemma ref_inv_set_groups m st : ref_inv st -> ref_inv (set_groups m st).
Proof. intros H; exact H. Qed.

Lemma action_ref (op : Op) (w : World) :
  ref_inv (store w) -> arg_ok op (store w) -> ref_inv (store (exec_op op w)).
Proof.
  intros Hw Harg; unfold exec_op.
  destruct op; cbn [action].
  all: try (apply loadLayout_ref; exact Hw).
  all: try (apply (pres_apply ref_inv); [|exact Hw]; unfold createSession, deleteSession, renameSession,
    updateSessionStatus, deleteGroup, setSessionGroup, createGroup, renameGroup,
    toggleGroupCollapsed, saveLayout; pres;
    first [ apply delete_update_ref; assumption
          | apply update_session_ref; [reflexivity|assumption]
          | apply ref_inv_set_groups; assumption
          | idtac ]; fail).
  all: try (apply (pres_apply ref_inv); [|exact Hw]; unfold createSession; pres;
             apply create_ref; assumption).
  all: unfold setActiveSession, enableSplitView, disableSplitView,
    addToSplit, removeFromSplit, setSplitDirection, splitGroup,
    bind, get, modify, fire, ret, host, expect_info in *.
  all: destruct w as [[ss gs act ld [en sids sdir]] rs lg];
    unfold ref_inv, active_ok, split_ok, ids_ok in *; cbn -[filter getSessionsInGroup] in *.
  all: destruct Hw as [Ha [Hs Hi]]; split_cases; cbn -[filter getSessionsInGroup] in *.
  all: repeat match goal with
    | H : negb _ = true |- _ => apply negb_true_iff in H
    | H : negb _ = false |- _ => apply negb_false_iff in H
    | H : hd_error _ = Some _ |- _ => apply hd_error_In in H
    | H : js_or ?x ?d = Some ?s |- _ =>
        let E := fresh in
        destruct (js_or_cases x d) as [E|E]; rewrite E in H; clear E
    | H : map_has _ _ = true |- _ => apply map_has_In in H
    | H : ?x = Some _ |- _ => is_var x; subst x
    | H : Some _ = Some _ |- _ => injection H as H; subst
    | H : None = Some _ |- _ => discriminate H
    | H : In _ (filter _ _) |- _ => apply filter_In in H as [H _]
    end.
  all: split; [|split]; auto.
  all: try (apply Forall_filter_sub; assumption).
  all: try (apply Forall_app; split; auto).
  all: try (rewrite Forall_forall in *; eauto; fail).
  all: try (exact (group_ids_keys _ _ _ Heqo Hi)).
  all: apply Forall_forall; intros x Hx; exact (group_ids_keys _ _ x Hx Hi).
Qed.

Lemma run_ops_ref (ops : list Op) (w : World) :
  ref_inv (store w) -> ops_ok ops w -> ref_inv (store (run_ops ops w)).
Proof.
  revert w; induction ops as [|op ops IH]; intros w Hr Hok; cbn in *; auto.
  destruct Hok as [Ha Hok]; apply IH; auto.
  apply action_ref; auto.
Qed.

(** ** C9: the active selection and the registry *)

(** C9 (counterexample). [setActiveSession] stores any id: on the empty
    store, selecting ["ghost"] makes the active selection an id that is no
    key of the registry.  Second, an action that runs while [loadLayout]
    awaits the host: two saved sessions are restored as ["1"] and ["2"].
    The run of [loadLayout] reaches the await of the second creation call
    with ["1"] restored and kept as [firstSessionId]; a [deleteSession "1"]
    settled there (its host reply arriving before that of the creation)
    removes ["1"], and the final [set] of [loadLayout] still makes ["1"]
    the active selection. *)
Lemma active_selection_unregistered :
  (let w' := snd (setActiveSession (Some "ghost") (mkWorld initialStore [] [])) in
   (store w').(activeSessionId) = Some "ghost" /\
   ~ In "ghost" (map_keys (store w').(sessions))) /\
  (let sA := mkInfo "old1" "A" None "/bin/zsh" "/tmp" Running in
   let sB := mkInfo "old2" "B" None "/bin/zsh" "/tmp" Running in
   let iA := mkInfo "1" "A" None "/bin/zsh" "/tmp" Running in
   let iB := mkInfo "2" "B" None "/bin/zsh" "/tmp" Running in
   let w := mkWorld initialStore
              [RAppState (Some (mkAppState [sA; sB] [] None));
               RSessionInfo iA; RSessionInfo iB] [] in
   let w1 := mkWorld (mkStore [("1", session_of_info iA)] [] None true
                              (mkSplitView false [] vertical))
               [RSessionInfo iB] [CLoadLayout; create_cmd sA] in
   let w2 := snd (deleteSession "1" (mkWorld (store w1) (RUnit :: replies w1) (log w1))) in
   let w3 := snd (loadLayout_rest [sB] (Some "1") w2) in
   loadLayout w = loadLayout_rest [sB] (Some "1") w1 /\
   ~ In "1" (map_keys (store w2).(sessions)) /\
   (store w3).(activeSessionId) = Some "1" /\
   ~ In "1" (map_keys (store w3).(sessions))).
Proof.
  split.
  - split; [reflexivity | cbn; intros []].
  - cbv zeta; split; [reflexivity|]. split; [cbn; intros []|].
    split; [reflexivity|]. cbn; intros [E|[]]; discriminate.
Qed.

(** C9 (amended). The store does not check the ids given to
    [setActiveSession] and [enableSplitView].  Provided each such call
    gets null or registry keys, every sequence of store actions, each one
    settled before the next starts ([run_ops]), started
    from a store whose active selection is null or a registry key keeps it
    so.  The same holds for the split members being registry keys and for
    each record being stored under its own id. *)
Theorem active_selection_registered (ops : list Op) (w : World) :
  ref_inv (store w) -> ops_ok ops w ->
  match (store (run_ops ops w)).(activeSessionId) with
  | None => True
  | Some a => In a (map_keys (store (run_ops ops w)).(sessions))
  end /\ ref_inv (store (run_ops ops w)).
Proof.
  intros Hr Hok.
  pose proof (run_ops_ref ops w Hr Hok) as H.
  split; [apply H | exact H].
Qed.

(** ** C5: a failing host call *)

(** C5 (counterexample). [deleteGroup "g"] on [demo_store] where the host
    accepts the group deletion and the re-parenting of ["a"] but rejects
    that of ["b"]: the error propagates, yet the store has changed
    (["a"] is now ungrouped). *)
Lemma deleteGroup_partial_on_failure :
  let w := mkWorld demo_store [RUnit; RUnit; RFail] [] in
  fst (deleteGroup "g" w) = None /\
  store (snd (deleteGroup "g" w)) <> demo_store /\
  map_get "a" (store (snd (deleteGroup "g" w))).(sessions)
    = Some (demo_session "a" None).
Proof.
  split; [reflexivity|]. split; [|reflexivity].
  cbn; intros H; inversion H.
Qed.

(** C5 (amended). When the host call of [createSession],
    [deleteSession], [renameSession], [setSessionGroup], [createGroup],
    [renameGroup], [toggleGroupCollapsed] or the first host call of
    [deleteGroup] fails, the action rejects and the store is unchanged (a
    failed [createSession] inserts no record). *)
Theorem host_failure_leaves_store (st : Store) (rs : list Reply) (lg : list Cmd) :
  let w := mkWorld st (RFail :: rs) lg in
  (forall n g, fst (createSession n g w) = None /\ store (snd (createSession n g w)) = st) /\
  (forall id, fst (deleteSession id w) = None /\ store (snd (deleteSession id w)) = st) /\
  (forall id n, fst (renameSession id n w) = None /\
                store (snd (renameSession id n w)) = st) /\
  (forall id g, fst (setSessionGroup id g w) = None /\
                store (snd (setSessionGroup id g w)) = st) /\
  (forall n, fst (createGroup n w) = None /\ store (snd (createGroup n w)) = st) /\
  (forall id n, fst (renameGroup id n w) = None /\
                store (snd (renameGroup id n w)) = st) /\
  (forall id, fst (toggleGroupCollapsed id w) = None /\
              store (snd (toggleGroupCollapsed id w)) = st) /\
  (forall id, fst (deleteGroup id w) = None /\ store (snd (deleteGroup id w)) = st).
Proof.
  intros w.
  repeat split; reflexivity.
Qed.

(** ** C4: deleteGroup *)

Lemma setSessionGroup_null_ok (k : string) (st : Store) (rs : list Reply)
    (lg : list Cmd) :
  setSessionGroup k None (mkWorld st (RUnit :: rs) lg) =
  (Some tt, mkWorld (set_sessions (update_session k ungroup st.(sessions)) st) rs
                    (lg ++ [CSetSessionGroup k None])).
Proof. reflexivity. Qed.

Lemma reparent_loop (L : list Session) (w : World) (rs : list Reply) :
  w.(replies) = repeat RUnit (length L) ++ rs ->
  for_each L (fun s => setSessionGroup s.(sid) None) w =
  (Some tt, mkWorld
     (set_sessions (fold_left (fun m s => update_session s.(sid) ungroup m) L
                     w.(store).(sessions)) w.(store))
     rs (w.(log) ++ map (fun s => CSetSessionGroup s.(sid) None) L)).
Proof.
  revert w; induction L as [|s L IH]; intros [st rs0 lg] Hr; cbn in Hr.
  - subst rs0; cbn; rewrite app_nil_r; destruct st; reflexivity.
  - subst rs0; cbn [for_each]; unfold bind at 1.
    rewrite setSessionGroup_null_ok.
    rewrite IH by reflexivity.
    cbn; rewrite <- app_assoc; reflexivity.
Qed.

Lemma map_get_None_notin {V} (k : string) (m : list (string * V)) :
  map_get k m = None -> ~ In k (map fst m).
Proof.
  induction m as [|[k' v] m IH]; cbn; [tauto|].
  destruct (String.eqb_spec k' k); [discriminate|].
  intros H [E|I]; [congruence|exact (IH H I)].
Qed.

Lemma map_upd_notin (k : string) (f : Session -> Session) (m : list (string * Session)) :
  ~ In k (map fst m) -> map (upd_at k f) m = m.
Proof.
  induction m as [|[k' v] m IH]; cbn; intros H; [reflexivity|].
  unfold upd_at at 1; cbn.
  destruct (String.eqb_spec k' k); [tauto|].
  rewrite IH by tauto; reflexivity.
Qed.

Lemma update_session_map (k : string) (f : Session -> Session)
    (m : list (string * Session)) :
  NoDup (map fst m) -> update_session k f m = map (upd_at k f) m.
Proof.
  unfold update_session.
  induction m as [|[k' v] m IH]; cbn; intros Hnd; [reflexivity|].
  inversion Hnd as [|? ? Hnin Hnd']; subst.
  unfold upd_at at 1; cbn.
  destruct (String.eqb_spec k' k) as [->|Hne].
  - unfold map_set, map_has; cbn; rewrite String.eqb_refl; cbn.
    rewrite map_upd_notin by exact Hnin; reflexivity.
  - destruct (map_get k m) as [s|] eqn:E.
    + unfold map_set, map_has; cbn.
      destruct (String.eqb_spec k' k); [congruence|].
      rewrite E; cbn.
      destruct (String.eqb_spec k' k); [congruence|].
      f_equal.
      specialize (IH Hnd'); unfold map_set, map_has in IH; rewrite E in IH.
      exact IH.
    + rewrite map_upd_notin by (apply map_get_None_notin; exact E).
      reflexivity.
Qed.

Lemma fold_ungroup (L : list Session) (m : list (string * Session)) :
  NoDup (map fst m) ->
  fold_left (fun m s => update_session s.(sid) ungroup m) L m = map (ungroup_by L) m.
Proof.
  revert m; induction L as [|s L IH]; intros m Hnd; cbn.
  - unfold ungroup_by; cbn; rewrite <- (map_id m) at 1.
    apply map_ext; intros [k v]; reflexivity.
  - rewrite update_session_map by exact Hnd.
    rewrite IH by (rewrite map_map; unfold upd_at;
                   erewrite map_ext; [exact Hnd|]; intros [k v]; cbn;
                   destruct (String.eqb k (sid s)); reflexivity).
    rewrite map_map; apply map_ext; intros [k v].
    unfold upd_at, ungroup_by; cbn.
    destruct (String.eqb k (sid s)) eqn:E; cbn.
    + destruct (existsb _ L); reflexivity.
    + reflexivity.
Qed.

Lemma NoDup_fst_unique {V} (k : string) (a b : V) (m : list (string * V)) :
  NoDup (map fst m) -> In (k, a) m -> In (k, b) m -> a = b.
Proof.
  induction m as [|[k' v] m IH]; cbn; [tauto|].
  intros Hnd; inversion Hnd as [|? ? Hnin Hnd']; subst.
  intros [Ea|Ia] [Eb|Ib].
  - congruence.
  - injection Ea as -> ->. exfalso; apply Hnin.
    apply (in_map fst) in Ib; exact Ib.
  - injection Eb as -> ->. exfalso; apply Hnin.
    apply (in_map fst) in Ia; exact Ia.
  - exact (IH Hnd' Ia Ib).
Qed.

Lemma opt_eqb_true (a b : option string) : opt_eqb a b = true <-> a = b.
Proof.
  destruct a as [x|], b as [y|]; cbn; split; intros H; try congruence.
  - apply String.eqb_eq in H; congruence.
  - injection H as ->; apply String.eqb_refl.
Qed.

Lemma ungroup_by_members (id : string) (m : list (string * Session)) :
  NoDup (map fst m) -> Forall (fun p => (snd p).(sid) = fst p) m ->
  map (ungroup_by (filter (fun s => opt_eqb s.(sgroupId) (Some id)) (map snd m))) m
  = ungroup_members id m.
Proof.
  intros Hnd Hids; unfold ungroup_members.
  apply map_ext_in; intros [k v] Hin; unfold ungroup_by; cbn.
  destruct (opt_eqb (sgroupId v) (Some id)) eqn:Eg.
  - replace (existsb _ _) with true; [reflexivity|].
    symmetry; apply existsb_exists; exists v; split.
    + apply filter_In; split; [apply (in_map snd) in Hin; exact Hin|exact Eg].
    + rewrite Forall_forall in Hids; pose proof (Hids _ Hin) as Hv; cbn in Hv.
      rewrite Hv; apply String.eqb_refl.
  - destruct (existsb _ _) eqn:Ex; [|reflexivity].
    exfalso; apply existsb_exists in Ex as [s [Hs Hk]].
    apply filter_In in Hs as [Hs Hsg].
    apply in_map_iff in Hs as [[k' s'] [Es Hin']]; cbn in Es; subst s'.
    apply String.eqb_eq in Hk.
    rewrite Forall_forall in Hids; pose proof (Hids _ Hin') as Hk'; cbn in Hk'.
    assert (s = v) by (apply (NoDup_fst_unique k s v m Hnd); [congruence|exact Hin]).
    congruence.
Qed.

Lemma ungrouped_count (id : string) (m : list (string * Session)) :
  length (filter ungrouped (map_values (ungroup_members id m))) =
  length (filter ungrouped (map_values m)) +
  length (filter (fun s => opt_eqb s.(sgroupId) (Some id)) (map_values m)).
Proof.
  unfold map_values, ungroup_members.
  induction m as [|[k v] m IH]; cbn; [reflexivity|].
  destruct (opt_eqb (sgroupId v) (Some id)) eqn:E; cbn.
  - apply opt_eqb_true in E; unfold ungrouped at 2; rewrite E; cbn.
    rewrite IH; lia.
  - destruct (ungrouped v); cbn; rewrite IH; lia.
Qed.

Lemma ungroup_members_clears (id : string) (m : list (string * Session)) :
  Forall (fun s => s.(sgroupId) <> Some id) (map_values (ungroup_members id m)).
Proof.
  unfold map_values, ungroup_members.
  induction m as [|[k v] m IH]; cbn; constructor; [|exact IH].
  destruct (opt_eqb (sgroupId v) (Some id)) eqn:E; cbn; [discriminate|].
  intros H; apply opt_eqb_true in H; congruence.
Qed.

Lemma deleteGroup_fail_groups (id : string) (w : World) :
  fst (deleteGroup id w) = None ->
  (store (snd (deleteGroup id w))).(groups) = (store w).(groups).
Proof.
  set (P := fun st : Store => st.(groups) = (store w).(groups)).
  change (fst (deleteGroup id w) = None -> P (store (snd (deleteGroup id w)))).
  assert (Hw : P (store w)) by reflexivity.
  destruct (deleteGroup id w) as [o w'] eqn:E; cbn; intros ->.
  unfold deleteGroup, bind at 1 in E.
  pose proof (pres_host P (CDeleteGroup id) w Hw) as H1.
  destruct (host (CDeleteGroup id) w) as [[r|] w1]; cbn in H1;
    [|injection E as <-; exact H1].
  unfold bind at 1 in E.
  destruct r; cbn in E; try (injection E as <-; exact H1).
  assert (Hf : forall s, preserves P (setSessionGroup (sid s) None)).
  { intros s; unfold setSessionGroup; pres; exact Hst. }
  pose proof (pres_for_each P (getSessionsInGroup (Some id) (store w1))
                (fun s => setSessionGroup (sid s) None) Hf w1 H1) as H2.
  unfold bind at 1 in E.
  destruct (for_each _ _ w1) as [[[]|] w2]; cbn in H2, E; [discriminate|].
  injection E as <-; exact H2.
Qed.

Lemma deleteGroup_success (id : string) (st : Store) (rs : list Reply) (lg : list Cmd) :
  NoDup (map_keys st.(sessions)) -> ids_ok st ->
  let members := getSessionsInGroup (Some id) st in
  deleteGroup id (mkWorld st (repeat RUnit (S (length members)) ++ rs) lg) =
  (Some tt, mkWorld (mkStore (ungroup_members id st.(sessions))
                             (map_delete id st.(groups)) st.(activeSessionId)
                             st.(isLoading) st.(splitView))
                    rs (lg ++ CDeleteGroup id ::
                        map (fun s => CSetSessionGroup s.(sid) None) members)).
Proof.
  intros Hnd Hids members.
  unfold deleteGroup, bind at 1; cbn -[for_each].
  unfold bind at 1.
  unfold members.
  rewrite (reparent_loop (getSessionsInGroup (Some id) st)
             (mkWorld st (repeat RUnit (length (getSessionsInGroup (Some id) st)) ++ rs)
                (lg ++ [CDeleteGroup id])) rs)
    by reflexivity.
  cbn -[fold_left].
  rewrite fold_ungroup by exact Hnd.
  unfold getSessionsInGroup, map_values.
  rewrite ungroup_by_members by assumption.
  rewrite <- app_assoc; reflexivity.
Qed.

Lemma ungroup_members_keys (id : string) (m : list (string * Session)) :
  map_keys (ungroup_members id m) = map_keys m.
Proof.
  unfold map_keys, ungroup_members; rewrite map_map.
  apply map_ext; intros [k v]; cbn.
  destruct (opt_eqb (sgroupId v) (Some id)); reflexivity.
Qed.

(** C4 (counterexample). On [demo_store], [deleteGroup "g"] sends the
    group deletion to the host before any re-parenting call; and when the
    host then rejects the re-parenting of ["a"], the host has deleted ["g"]
    while ["a"] and ["b"] still reference it. *)
Lemma deleteGroup_host_delete_first :
  log (snd (deleteGroup "g" (mkWorld demo_store [RUnit; RUnit; RUnit] []))) =
    [CDeleteGroup "g"; CSetSessionGroup "a" None; CSetSessionGroup "b" None] /\
  let w' := snd (deleteGroup "g" (mkWorld demo_store [RUnit; RFail] [])) in
  log w' = [CDeleteGroup "g"; CSetSessionGroup "a" None] /\
  getSessionsInGroup (Some "g") (store w') =
    [demo_session "a" (Some "g"); demo_session "b" (Some "g")].
Proof. split; [reflexivity|split; reflexivity]. Qed.

(** C4 (amended). On a registry with distinct keys, each stored under its
    own id, and a host that accepts every call, [deleteGroup id] with N
    member sessions first deletes the group at the host, then sends the N
    re-parenting calls (one per member, in registry order), then removes
    the group from the local groups map. Afterwards exactly the N members
    have changed, each to [groupId = null]; the registry keeps its keys;
    no session references [id]; the count of ungrouped sessions grew by
    exactly N. Whenever [deleteGroup] rejects, the local groups map is
    unchanged. *)
Theorem deleteGroup_spec (id : string) (st : Store) (rs : list Reply) (lg : list Cmd) :
  NoDup (map_keys st.(sessions)) -> ids_ok st ->
  let members := getSessionsInGroup (Some id) st in
  let w := mkWorld st (repeat RUnit (S (length members)) ++ rs) lg in
  let w' := snd (deleteGroup id w) in
  fst (deleteGroup id w) = Some tt /\
  log w' = lg ++ CDeleteGroup id :: map (fun s => CSetSessionGroup s.(sid) None) members /\
  (store w').(sessions) = ungroup_members id st.(sessions) /\
  map_keys (store w').(sessions) = map_keys st.(sessions) /\
  (store w').(groups) = map_delete id st.(groups) /\
  Forall (fun s => s.(sgroupId) <> Some id) (map_values (store w').(sessions)) /\
  length (filter ungrouped (map_values (store w').(sessions))) =
    length (filter ungrouped (map_values st.(sessions))) + length members /\
  (forall w0, fst (deleteGroup id w0) = None ->
              (store (snd (deleteGroup id w0))).(groups) = (store w0).(groups)).
Proof.
  intros Hnd Hids members w w'.
  pose proof (deleteGroup_success id st rs lg Hnd Hids) as E; cbv zeta in E.
  unfold w', w, members; rewrite E; cbn [fst snd store log sessions groups].
  split; [reflexivity|]. split; [reflexivity|]. split; [reflexivity|].
  split; [apply ungroup_members_keys|]. split; [reflexivity|].
  split; [apply ungroup_members_clears|].
  split; [apply ungrouped_count|].
  apply deleteGroup_fail_groups.
Qed.

Lemma deleteGroup_spec_witness :
  NoDup (map_keys demo_store.(sessions)) /\ ids_ok demo_store /\
  fst (deleteGroup "g" (mkWorld demo_store [RUnit; RUnit; RUnit] [])) = Some tt.
Proof.
  assert (H1 : NoDup (map_keys demo_store.(sessions))).
  { cbn; repeat constructor; cbn; intuition discriminate. }
  assert (H2 : ids_ok demo_store) by (repeat constructor).
  split; [exact H1|]. split; [exact H2|].
  exact (proj1 (deleteGroup_spec "g" demo_store [] [] H1 H2)).
Defined.

(** ** C3: pane sizes and split members *)

Lemma length_equal_shares (ids : list string) : length (equal_shares ids) = length ids.
Proof. unfold equal_shares; apply length_map. Qed.

Lemma effect_ok (v : PaneView) (ids : list string) :
  length v.(paneSizes) = v.(depsLen) -> view_ok (effect v ids) ids.
Proof.
  intros H; unfold effect, view_ok.
  destruct (Nat.eqb_spec (length ids) (depsLen v)) as [E|E]; cbn.
  - split; congruence.
  - rewrite length_equal_shares; split; reflexivity.
Qed.

Lemma split_run_ok (os : list SplitOp) (w : World) (v : PaneView) :
  view_ok v w.(store).(splitView).(sessionIds) ->
  view_ok (snd (split_run os (w, v)))
          (fst (split_run os (w, v))).(store).(splitView).(sessionIds).
Proof.
  revert w v; induction os as [|o os IH]; intros w v Hv; cbn; [exact Hv|].
  apply IH; unfold split_step; cbn.
  apply effect_ok; apply Hv.
Qed.

(** C3 (counterexample). With the view mounted on the split ["a"; "b"],
    [addToSplit "c"] makes the next render lay out three members with the
    two old pane sizes: the sizes are reset only by the effect that runs
    after that render. *)
Lemma addToSplit_render_mismatch :
  let w' := snd (addToSplit "c" demo_split_world) in
  let r := render (mount ["a"; "b"]) w'.(store).(splitView).(sessionIds) in
  fst r = ["a"; "b"; "c"] /\ length (fst r) = 3 /\ length (snd r) = 2.
Proof. cbv zeta; split; [reflexivity|split; reflexivity]. Qed.

(** C3 (amended). Mount the view on the store's split members and run any
    sequence of [addToSplit] and [removeFromSplit] calls, each followed by
    a render and the reset effect. After each effect has run, the pane-size
    list and the split member list have equal length. The render just
    before the effect can still show the old sizes (see the
    counterexample). *)
Theorem pane_sizes_match_after_effect (os : list SplitOp) (w : World) :
  let ids0 := w.(store).(splitView).(sessionIds) in
  let wv := split_run os (w, mount ids0) in
  length (snd wv).(paneSizes) = length (fst wv).(store).(splitView).(sessionIds) /\
  (snd wv).(depsLen) = length (fst wv).(store).(splitView).(sessionIds).
Proof.
  cbv zeta.
  destruct (split_run_ok os w (mount (sessionIds (splitView (store w)))))
    as [H1 H2].
  - unfold view_ok, mount; cbn; rewrite length_equal_shares; split; reflexivity.
  - split; [rewrite H1|]; exact H2.
Qed.

(** ** C6 and C7: loadLayout *)

Lemma notin_map_get_None {V} (k : string) (m : list (string * V)) :
  ~ In k (map fst m) -> map_get k m = None.
Proof.
  induction m as [|[k' v] m IH]; cbn; intros H; [reflexivity|].
  destruct (String.eqb_spec k' k); [tauto|auto].
Qed.

Lemma map_get_app {V} (k : string) (m1 m2 : list (string * V)) :
  map_get k (m1 ++ m2) =
  match map_get k m1 with Some v => Some v | None => map_get k m2 end.
Proof.
  induction m1 as [|[k' v] m1 IH]; cbn; [reflexivity|].
  destruct (String.eqb k' k); [reflexivity|exact IH].
Qed.

Lemma map_get_replace_eq {V} (k : string) (v : V) (m : list (string * V)) :
  map_has k m = true -> map_get k (map_replace k v m) = Some v.
Proof.
  unfold map_has; induction m as [|[k' v'] m IH]; cbn; [discriminate|].
  destruct (String.eqb k' k) eqn:E; cbn; rewrite E; auto.
Qed.

Lemma map_get_replace_neq {V} (k k' : string) (v : V) (m : list (string * V)) :
  k' <> k -> map_get k (map_replace k' v m) = map_get k m.
Proof.
  intros Hne; induction m as [|[k0 v0] m IH]; cbn; [reflexivity|].
  destruct (String.eqb_spec k0 k') as [->|]; cbn.
  - destruct (String.eqb_spec k' k); [contradiction|reflexivity].
  - destruct (String.eqb k0 k); [reflexivity|exact IH].
Qed.

Lemma map_get_set_eq {V} (k : string) (v : V) (m : list (string * V)) :
  map_get k (map_set k v m) = Some v.
Proof.
  unfold map_set; destruct (map_has k m) eqn:E.
  - apply map_get_replace_eq; exact E.
  - rewrite map_get_app; unfold map_has in E.
    destruct (map_get k m); [discriminate|]; cbn.
    rewrite String.eqb_refl; reflexivity.
Qed.

Lemma map_get_set_neq {V} (k k' : string) (v : V) (m : list (string * V)) :
  k' <> k -> map_get k (map_set k' v m) = map_get k m.
Proof.
  intros Hne; unfold map_set; destruct (map_has k' m).
  - apply map_get_replace_neq; exact Hne.
  - rewrite map_get_app; destruct (map_get k m); [reflexivity|]; cbn.
    destruct (String.eqb_spec k' k); [contradiction|reflexivity].
Qed.

Lemma restore_one_run (s : SessionInfo) (o : option SessionInfo) (f : option string)
    (st : Store) (rs : list Reply) (lg : list Cmd) :
  restore_one s f (mkWorld st (reply_of o :: rs) lg) =
  match o with
  | None => (Some f, mkWorld st rs (lg ++ [create_cmd s]))
  | Some i => (Some (pick_first f i),
               mkWorld (set_sessions (insert_info st.(sessions) i) st) rs
                       (lg ++ [create_cmd s]))
  end.
Proof. destruct o; reflexivity. Qed.

Lemma restore_loop_run (saved : list SessionInfo) (outs : list (option SessionInfo))
    (f : option string) (st : Store) (rs : list Reply) (lg : list Cmd) :
  length outs = length saved ->
  restore_loop saved f (mkWorld st (map reply_of outs ++ rs) lg) =
  (Some (fold_left pick_first (somes outs) f),
   mkWorld (set_sessions (fold_left insert_info (somes outs) st.(sessions)) st) rs
           (lg ++ map create_cmd saved)).
Proof.
  revert outs f st lg; induction saved as [|s saved IH];
    intros [|o outs] f st lg Hlen; cbn in Hlen; try discriminate.
  - cbn; rewrite app_nil_r; destruct st; reflexivity.
  - cbn [restore_loop map app]; unfold bind at 1.
    rewrite restore_one_run.
    injection Hlen as Hlen.
    destruct o as [i|]; rewrite IH by exact Hlen; cbn;
      rewrite <- app_assoc; reflexivity.
Qed.

Lemma loadLayout_run (st : Store) (state : AppState) (outs : list (option SessionInfo))
    (rs : list Reply) (lg : list Cmd) :
  length outs = length state.(saved_sessions) ->
  loadLayout (mkWorld st (RAppState (Some state) :: map reply_of outs ++ rs) lg) =
  (Some tt, mkWorld (mkStore (fold_left insert_info (somes outs) st.(sessions))
                             (groups_of state.(saved_groups))
                             (fold_left pick_first (somes outs) None)
                             false st.(splitView))
                    rs (lg ++ CLoadLayout :: map create_cmd state.(saved_sessions))).
Proof.
  intros Hlen.
  unfold loadLayout, catch, bind at 1; cbn -[restore_loop].
  unfold bind at 1.
  rewrite (restore_loop_run (saved_sessions state) outs None _ rs _ Hlen).
  cbn; rewrite <- app_assoc; reflexivity.
Qed.

Lemma pick_first_truthy (l : list SessionInfo) (f : option string) :
  truthy f = true -> fold_left pick_first l f = f.
Proof.
  revert f; induction l as [|i l IH]; intros f H; cbn; [reflexivity|].
  unfold pick_first at 2; rewrite H; apply IH; exact H.
Qed.

Lemma pick_first_none (l : list SessionInfo) :
  Forall (fun i => i.(info_id) <> "") l ->
  fold_left pick_first l None = hd_error (map info_id l).
Proof.
  destruct l as [|i l]; cbn; intros H; [reflexivity|].
  inversion H as [|? ? Hi _]; subst.
  apply pick_first_truthy; cbn.
  destruct (String.eqb_spec (info_id i) ""); [contradiction|reflexivity].
Qed.

Lemma fold_insert_notin (k : string) (l : list SessionInfo) (m : list (string * Session)) :
  ~ In k (map info_id l) -> map_get k (fold_left insert_info l m) = map_get k m.
Proof.
  revert m; induction l as [|i l IH]; intros m H; cbn in *; [reflexivity|].
  rewrite IH by tauto.
  unfold insert_info; apply map_get_set_neq; cbn; intros E; apply H; left; exact E.
Qed.

Lemma fold_insert_get (k : string) (l : list SessionInfo) (m : list (string * Session)) :
  In k (map info_id l) ->
  exists i, In i l /\ info_id i = k /\
            map_get k (fold_left insert_info l m) = Some (session_of_info i).
Proof.
  revert m; induction l as [|i l IH]; intros m H; cbn in *; [contradiction|].
  destruct (in_dec String.string_dec k (map info_id l)) as [Hl|Hl].
  - destruct (IH (insert_info m i) Hl) as (j & Hj & Hk & Hg).
    exists j; auto.
  - destruct H as [E|E]; [|contradiction].
    exists i; split; [left; reflexivity|split; [exact E|]].
    rewrite fold_insert_notin by exact Hl.
    unfold insert_info; cbn; rewrite E; apply map_get_set_eq.
Qed.

Lemma groups_of_fold (gs : list SessionGroup) (m : list (string * SessionGroup)) :
  NoDup (map fst m ++ map gid gs) ->
  fold_left (fun m g => map_set g.(gid) (mkGroup g.(gid) g.(gname) g.(collapsed) g.(order)) m)
    gs m = m ++ map (fun g => (gid g, g)) gs.
Proof.
  revert m; induction gs as [|g gs IH]; intros m Hnd; cbn; [rewrite app_nil_r; reflexivity|].
  assert (Hg : ~ In (gid g) (map fst m)).
  { intros Hin. apply NoDup_remove_2 in Hnd. apply Hnd, in_or_app; left; exact Hin. }
  unfold map_set at 2, map_has; rewrite (notin_map_get_None _ _ Hg).
  rewrite IH.
  - destruct g; cbn; rewrite <- app_assoc; reflexivity.
  - rewrite map_app, <- app_assoc; exact Hnd.
Qed.

Lemma groups_of_verbatim (gs : list SessionGroup) :
  NoDup (map gid gs) -> groups_of gs = map (fun g => (gid g, g)) gs.
Proof. intros H; apply (groups_of_fold gs []); exact H. Qed.

Lemma restore_one_some (s : SessionInfo) (f : option string) (w : World) :
  exists f' w', restore_one s f w = (Some f', w').
Proof.
  unfold restore_one, catch; cbv beta.
  match goal with
  | |- context [match ?m w with _ => _ end] => destruct (m w) as [[x|] w1]
  end; eexists; eexists; reflexivity.
Qed.

Lemma restore_loop_some (saved : list SessionInfo) (f : option string) (w : World) :
  exists f' w', restore_loop saved f w = (Some f', w').
Proof.
  revert f w; induction saved as [|s saved IH]; intros f w; cbn.
  - exists f, w; reflexivity.
  - unfold bind at 1; destruct (restore_one_some s f w) as (f1 & w1 & ->).
    apply IH.
Qed.

Lemma restore_loop_split (k : nat) (saved : list SessionInfo)
    (outs : list (option SessionInfo)) (f : option string) (st : Store)
    (rs : list Reply) (lg : list Cmd) :
  length outs = length saved -> k <= length saved ->
  restore_loop saved f (mkWorld st (map reply_of outs ++ rs) lg) =
  restore_loop (skipn k saved) (fold_left pick_first (somes (firstn k outs)) f)
    (mkWorld (set_sessions (fold_left insert_info (somes (firstn k outs)) st.(sessions)) st)
             (map reply_of (skipn k outs) ++ rs) (lg ++ map create_cmd (firstn k saved))).
Proof.
  revert saved outs f st lg; induction k as [|k IH];
    intros saved outs f st lg Hlen Hk.
  - cbn; rewrite app_nil_r; destruct st; reflexivity.
  - destruct saved as [|s saved]; [cbn in Hk; lia|].
    destruct outs as [|o outs]; [discriminate|].
    cbn in Hlen, Hk; injection Hlen as Hlen.
    cbn [restore_loop map app]; unfold bind at 1; rewrite restore_one_run.
    destruct o as [i|]; rewrite (IH saved outs) by (exact Hlen || lia);
      cbn; rewrite <- app_assoc; reflexivity.
Qed.

Lemma loadLayout_split (k : nat) (st : Store) (ss : list SessionInfo)
    (gs : list SessionGroup) (a : option string) (outs : list (option SessionInfo))
    (rs : list Reply) (lg : list Cmd) :
  length outs = length ss -> k <= length ss ->
  loadLayout (mkWorld st (RAppState (Some (mkAppState ss gs a)) :: map reply_of outs ++ rs) lg) =
  loadLayout_rest (skipn k ss) (fold_left pick_first (somes (firstn k outs)) None)
    (mkWorld (mkStore (fold_left insert_info (somes (firstn k outs)) st.(sessions))
                      (groups_of gs) st.(activeSessionId) true st.(splitView))
             (map reply_of (skipn k outs) ++ rs)
             (lg ++ CLoadLayout :: map create_cmd (firstn k ss))).
Proof.
  intros Hlen Hk.
  unfold loadLayout, catch, bind at 1; cbn -[restore_loop].
  unfold bind at 1.
  rewrite (restore_loop_split k ss outs None _ rs _ Hlen Hk); cbn -[restore_loop].
  unfold loadLayout_rest, bind.
  rewrite <- app_assoc; cbn [app].
  unfold set_sessions, set_groups, set_loading;
    cbn [sessions groups activeSessionId isLoading splitView]; fold (groups_of gs).
  match goal with
  | |- context [restore_loop ?l ?f ?w] =>
      destruct (restore_loop_some l f w) as (f' & w' & ->)
  end.
  reflexivity.
Qed.

Lemma somes_app (l1 l2 : list (option SessionInfo)) :
  somes (l1 ++ l2) = somes l1 ++ somes l2.
Proof. induction l1 as [|[i|] l1 IH]; cbn; [reflexivity|rewrite IH|]; auto. Qed.

Lemma somes_firstn_Forall (P : SessionInfo -> Prop) (k : nat)
    (outs : list (option SessionInfo)) :
  Forall P (somes outs) -> Forall P (somes (firstn k outs)).
Proof.
  rewrite <- (firstn_skipn k outs) at 1; rewrite somes_app.
  intros H; apply Forall_app in H; apply H.
Qed.

(** C6. When the host returns a snapshot with saved sessions [ss] and
    groups [gs], and answers the creation of the k-th saved session with
    [nth k outs] ([Some info] for a success, a rejection for [None]), and
    the ids it hands out are non-empty strings, then [loadLayout]: sends
    one creation call per saved session, strictly in the saved order, each
    after the load call.  Its run goes, for every k up to the number of
    saved sessions, through the point just before the (k+1)-th creation
    call, where: all saved groups are already in the store (so already at
    k = 0, before any session is created), exactly the first k creation
    calls have been sent and their k replies awaited, the registry holds
    exactly the sessions of the successful ones among them, the first of
    those is the [firstSessionId] so far, and what is left is the loop over
    the remaining saved sessions followed by the final [set].  In the end it
    replaces the groups map by the saved groups (each group record as
    saved, when their ids are distinct); makes the first successfully
    created session the active selection ([null] when none succeeded); and
    every created session is in the registry with status [running],
    whatever status was saved. *)
Theorem loadLayout_restores (st : Store) (ss : list SessionInfo) (gs : list SessionGroup)
    (a : option string) (outs : list (option SessionInfo)) (rs : list Reply)
    (lg : list Cmd) :
  length outs = length ss ->
  Forall (fun i => i.(info_id) <> "") (somes outs) ->
  let w := mkWorld st (RAppState (Some (mkAppState ss gs a)) :: map reply_of outs ++ rs) lg in
  let w' := snd (loadLayout w) in
  fst (loadLayout w) = Some tt /\
  log w' = lg ++ CLoadLayout :: map create_cmd ss /\
  (forall k, k <= length ss ->
     loadLayout w =
     loadLayout_rest (skipn k ss) (hd_error (map info_id (somes (firstn k outs))))
       (mkWorld (mkStore (fold_left insert_info (somes (firstn k outs)) st.(sessions))
                         (groups_of gs) st.(activeSessionId) true st.(splitView))
                (map reply_of (skipn k outs) ++ rs)
                (lg ++ CLoadLayout :: map create_cmd (firstn k ss)))) /\
  (store w').(groups) = groups_of gs /\
  (NoDup (map gid gs) -> (store w').(groups) = map (fun g => (gid g, g)) gs) /\
  (store w').(activeSessionId) = hd_error (map info_id (somes outs)) /\
  (store w').(sessions) = fold_left insert_info (somes outs) st.(sessions) /\
  Forall (fun i => exists s, map_get i.(info_id) (store w').(sessions) = Some s /\
                             s.(status) = running) (somes outs) /\
  (store w').(isLoading) = false.
Proof.
  intros Hlen Hids w w'.
  assert (Hsteps : forall k, k <= length ss ->
     loadLayout w =
     loadLayout_rest (skipn k ss) (hd_error (map info_id (somes (firstn k outs))))
       (mkWorld (mkStore (fold_left insert_info (somes (firstn k outs)) st.(sessions))
                         (groups_of gs) st.(activeSessionId) true st.(splitView))
                (map reply_of (skipn k outs) ++ rs)
                (lg ++ CLoadLayout :: map create_cmd (firstn k ss)))).
  { intros k Hk; unfold w.
    rewrite (loadLayout_split k st ss gs a outs rs lg Hlen Hk).
    rewrite pick_first_none; [reflexivity|].
    apply somes_firstn_Forall; exact Hids. }
  split; [|split; [|split; [exact Hsteps|]]].
  all: unfold w', w; rewrite (loadLayout_run st (mkAppState ss gs a) outs rs lg Hlen);
    cbn [fst snd store log groups activeSessionId sessions isLoading saved_groups
         saved_sessions].
  1, 2: reflexivity.
  split; [reflexivity|].
  split; [apply groups_of_verbatim|].
  split; [apply pick_first_none; exact Hids|].
  split; [reflexivity|].
  split; [|reflexivity].
  apply Forall_forall; intros i Hi.
  destruct (fold_insert_get (info_id i) (somes outs) (sessions st)) as (j & _ & _ & Hg).
  - apply in_map; exact Hi.
  - exists (session_of_info j); split; [exact Hg|reflexivity].
Qed.

(** Three saved sessions and two saved groups; the first creation is
    rejected, the other two succeed with ids ["2"] and ["3"]. *)
Lemma loadLayout_restores_witness :
  let sA := mkInfo "old1" "A" (Some "g1") "/bin/zsh" "/home" Stopped in
  let sB := mkInfo "old2" "B" None "/bin/zsh" "/tmp" (Error "exit 1") in
  let sC := mkInfo "old3" "C" (Some "g2") "/bin/zsh" "/srv" Running in
  let iB := mkInfo "2" "B" None "/bin/zsh" "/tmp" Running in
  let iC := mkInfo "3" "C" (Some "g2") "/bin/zsh" "/srv" Running in
  let g1 := mkGroup "g1" "G1" true 1%Z in
  let g2 := mkGroup "g2" "G2" false 0%Z in
  let outs := [None; Some iB; Some iC] in
  let w := mkWorld initialStore
             (RAppState (Some (mkAppState [sA; sB; sC] [g1; g2] None))
                :: map reply_of outs ++ []) [] in
  length outs = length [sA; sB; sC] /\
  Forall (fun i => i.(info_id) <> "") (somes outs) /\
  loadLayout w =
    loadLayout_rest [sB; sC] None
      (mkWorld (mkStore [] [("g1", g1); ("g2", g2)] None true (mkSplitView false [] vertical))
               [RSessionInfo iB; RSessionInfo iC] [CLoadLayout; create_cmd sA]) /\
  (store (snd (loadLayout w))).(activeSessionId) = Some "2" /\
  (store (snd (loadLayout w))).(groups) = [("g1", g1); ("g2", g2)].
Proof.
  cbv zeta.
  match goal with
  | |- ?A /\ ?B /\ _ =>
      assert (H1 : A) by reflexivity;
      assert (H2 : B) by (repeat constructor; cbn; discriminate)
  end.
  pose proof (loadLayout_restores initialStore _
                [mkGroup "g1" "G1" true 1%Z; mkGroup "g2" "G2" false 0%Z] None _ [] [] H1 H2) as HT.
  cbv zeta in HT.
  destruct HT as (_ & _ & Hs & _ & Hv & Ha & _).
  split; [exact H1|]. split; [exact H2|].
  split; [rewrite (Hs 1) by (cbn; lia); reflexivity|].
  split; [rewrite Ha; reflexivity|].
  rewrite Hv; [reflexivity|]; cbn.
  apply NoDup_cons; [intros [E|[]]; discriminate|].
  apply NoDup_cons; [intros []|constructor].
Defined.

Lemma bind_modify_catch (f g : Store -> Store) (m : M unit) (w : World) :
  fst ((modify f ;;; catch m (modify g)) w) = Some tt.
Proof.
  unfold bind, catch; simpl.
  destruct (m _) as [[[]|] w']; reflexivity.
Qed.

Lemma In_somes (i : SessionInfo) (outs : list (option SessionInfo)) :
  In (Some i) outs -> In i (somes outs).
Proof.
  induction outs as [|[j|] outs IH]; cbn; [tauto| |].
  - intros [E|H]; [injection E as ->; left; reflexivity|right; auto].
  - intros [E|H]; [discriminate|auto].
Qed.

(** C7. [loadLayout] always resolves, whatever the host answers. With no
    snapshot it only clears [isLoading] (from the initial store it leaves
    the empty initial store); when the load call itself is rejected it
    does the same. With a snapshot, every saved session gets its creation
    call, also those after a rejected one, and every session created
    successfully is in the registry at the end. *)
Theorem loadLayout_never_rejects :
  (forall w, fst (loadLayout w) = Some tt) /\
  (forall st rs lg,
     store (snd (loadLayout (mkWorld st (RAppState None :: rs) lg))) = set_loading false st) /\
  (forall rs lg,
     store (snd (loadLayout (mkWorld initialStore (RAppState None :: rs) lg))) = initialStore) /\
  (forall st rs lg,
     store (snd (loadLayout (mkWorld st (RFail :: rs) lg))) = set_loading false st) /\
  (forall st ss gs a outs rs lg,
     length outs = length ss ->
     let w' := snd (loadLayout (mkWorld st
                 (RAppState (Some (mkAppState ss gs a)) :: map reply_of outs ++ rs) lg)) in
     log w' = lg ++ CLoadLayout :: map create_cmd ss /\
     (forall i, In (Some i) outs -> In i.(info_id) (map_keys (store w').(sessions)))).
Proof.
  split; [intros w; unfold loadLayout; apply bind_modify_catch|].
  split; [reflexivity|]. split; [reflexivity|]. split; [reflexivity|].
  intros st ss gs a outs rs lg Hlen w'.
  unfold w'; rewrite (loadLayout_run st (mkAppState ss gs a) outs rs lg Hlen).
  cbn [snd store log sessions saved_sessions].
  split; [reflexivity|].
  intros i Hi.
  destruct (fold_insert_get (info_id i) (somes outs) (sessions st)) as (j & _ & _ & Hg).
  - apply in_map, In_somes, Hi.
  - apply map_get_In in Hg.
    unfold map_keys; apply in_map_iff; exists (info_id i, session_of_info j); auto.
Qed.

(** The restore of the spec's example: ["A"] is created, the creation of
    ["B"] is rejected; ["A"] is present and active. *)
Lemma loadLayout_never_rejects_witness :
  let ia := mkInfo "1" "A" None "/bin/zsh" "/tmp" Running in
  let ib := mkInfo "2" "B" None "/bin/zsh" "/tmp" Running in
  let w' := snd (loadLayout (mkWorld initialStore
              (RAppState (Some (mkAppState [ia; ib] [] None))
                 :: map reply_of [Some ia; None] ++ []) [])) in
  In "1" (map_keys (store w').(sessions)) /\ (store w').(activeSessionId) = Some "1".
Proof.
  cbv zeta.
  split; [|reflexivity].
  pose proof (proj2 (proj2 (proj2 (proj2 loadLayout_never_rejects)))
                initialStore [mkInfo "1" "A" None "/bin/zsh" "/tmp" Running;
                              mkInfo "2" "B" None "/bin/zsh" "/tmp" Running] [] None
                [Some (mkInfo "1" "A" None "/bin/zsh" "/tmp" Running); None] [] []
                eq_refl) as H.
  cbv zeta in H.
  exact (proj2 H (mkInfo "1" "A" None "/bin/zsh" "/tmp" Running) (or_introl eq_refl)).
Defined.

(** ** Instances of the theorems with hypotheses *)

Lemma handleMouseMove_spec_witness :
  S 1 < length [50 # 1; 25 # 1; 25 # 1]%Q /\
  length (handleMouseMove [50 # 1; 25 # 1; 25 # 1]%Q 1 (60 # 100)) = 3.
Proof.
  assert (H : S 1 < length [50 # 1; 25 # 1; 25 # 1]%Q) by (cbn; lia).
  split; [exact H|].
  exact (proj1 (handleMouseMove_spec [50 # 1; 25 # 1; 25 # 1]%Q 1 (60 # 100) H)).
Defined.

Lemma split_shape_invariant_witness :
  split_shape demo_store /\
  split_shape (store (run_ops [OAddToSplit "a"; OAddToSplit "b"; ORemoveFromSplit "c"]
                              (mkWorld demo_store [] []))).
Proof.
  assert (H : split_shape (store (mkWorld demo_store [] [])))
    by (left; split; reflexivity).
  split; [exact H|].
  exact (proj1 (split_shape_invariant
                  [OAddToSplit "a"; OAddToSplit "b"; ORemoveFromSplit "c"]
                  (mkWorld demo_store [] []) H)).
Defined.

Lemma active_selection_registered_witness :
  ref_inv demo_store /\
  ops_ok [OSetActiveSession (Some "a"); OEnableSplitView ["a"; "b"] vertical]
         (mkWorld demo_store [] []) /\
  ref_inv (store (run_ops [OSetActiveSession (Some "a");
                           OEnableSplitView ["a"; "b"] vertical]
                          (mkWorld demo_store [] []))).
Proof.
  assert (H1 : ref_inv (store (mkWorld demo_store [] []))).
  { split; [|split].
    - cbn; right; right; left; reflexivity.
    - constructor.
    - repeat constructor. }
  assert (H2 : ops_ok [OSetActiveSession (Some "a"); OEnableSplitView ["a"; "b"] vertical]
                      (mkWorld demo_store [] [])).
  { cbn; split; [left; reflexivity|split; [|exact I]].
    constructor; [left; reflexivity|constructor; [right; left; reflexivity|constructor]]. }
  split; [exact H1|]. split; [exact H2|].
  exact (proj2 (active_selection_registered _ _ H1 H2)).
Defined.

(** * Further properties of the application code *)

(** ** Keyboard shortcuts (App.tsx) *)

Lemma js_at_In (l : list string) (i : Z) (a : string) :
  js_at l i = Some a -> In a l.
Proof.
  unfold js_at. destruct (Z.ltb i 0); [discriminate|]. apply nth_error_In.
Qed.

Lemma js_at_nat (l : list string) (i : nat) : js_at l (Z.of_nat i) = nth_error l i.
Proof.
  unfold js_at. replace (Z.ltb (Z.of_nat i) 0) with false by (symmetry; apply Z.ltb_ge; lia).
  now rewrite Nat2Z.id.
Qed.

Lemma index_of_nth (l : list string) (i : nat) (a : string) :
  NoDup l -> nth_error l i = Some a -> index_of a l = Z.of_nat i.
Proof.
  revert i; induction l as [|y l IH]; intros i Hnd Hi; [destruct i; discriminate|].
  inversion Hnd as [|? ? Hy Hnd']; subst.
  destruct i as [|i]; cbn in Hi |- *.
  - injection Hi as ->. now rewrite String.eqb_refl.
  - assert (Hya : y <> a) by (intros ->; apply Hy; eapply nth_error_In; eauto).
    apply String.eqb_neq in Hya; rewrite Hya.
    rewrite (IH i Hnd' Hi).
    replace (Z.eqb (Z.of_nat i) (-1)) with false by (symmetry; apply Z.eqb_neq; lia).
    lia.
Qed.

Lemma index_of_notin (l : list string) (a : string) : ~ In a l -> index_of a l = (-1)%Z.
Proof.
  induction l as [|y l IH]; intros Hn; cbn; auto.
  assert (Hya : y <> a) by (intros ->; apply Hn; left; reflexivity).
  apply String.eqb_neq in Hya; rewrite Hya.
  rewrite IH by (intros H; apply Hn; right; exact H). reflexivity.
Qed.

Lemma truthy_nonempty (a : string) : a <> "" -> truthy (Some a) = true.
Proof. intros H; cbn; apply String.eqb_neq in H; now rewrite H. Qed.

Lemma key_op_arg_ok (e : KeyEvent) (st : Store) (op : Op) :
  key_op (handleKeyDown e st) st = Some op -> arg_ok op st.
Proof.
  intros H. unfold handleKeyDown in H.
  repeat (match type of H with
  | context [if ?b then _ else _] =>
      lazymatch b with true => fail | false => fail | _ => destruct b end
  | context [match ?x with Some _ => _ | None => _ end] =>
      lazymatch x with Some _ => fail | None => fail | _ => destruct x end
  end; cbn iota beta in H); inversion H; subst; cbn; auto;
  match goal with
  | |- match ?x with Some _ => _ | None => _ end => destruct x eqn:E; auto
  end; eapply js_at_In; eauto.
Qed.

(** A store with its invariant, used by the instances below. *)
Lemma demo_store_ref : ref_inv demo_store.
Proof.
  split; [|split].
  - cbn; right; right; left; reflexivity.
  - constructor.
  - repeat constructor.
Qed.

(** X1. Every keyboard shortcut keeps the active selection and the split
    members registered, and every registry entry under its own id. *)
Theorem on_key_ref (e : KeyEvent) (w : World) :
  ref_inv (store w) -> ref_inv (store (snd (on_key e w))).
Proof.
  intros Hr. unfold on_key, bind, get; cbn.
  destruct (key_op (handleKeyDown e (store w)) (store w)) as [op|] eqn:E; cbn; auto.
  apply (action_ref op w Hr). eapply key_op_arg_ok; eauto.
Qed.

Lemma on_key_ref_witness :
  ref_inv (store (mkWorld demo_store [] [])) /\
  ref_inv (store (snd (on_key (mkKeyEvent true true "]") (mkWorld demo_store [] [])))).
Proof.
  split; [exact demo_store_ref|].
  exact (on_key_ref (mkKeyEvent true true "]") (mkWorld demo_store [] []) demo_store_ref).
Defined.

(** X2. With distinct registry keys and a registered, non-empty active id at
    position [i] of [n > 1] keys, Cmd+Shift+] selects the key at
    [(i + 1) mod n] and Cmd+Shift+[ the key at [(i + n - 1) mod n]. *)
Theorem key_next_prev (st : Store) (i : nat) (a : string) :
  let ks := map_keys st.(sessions) in
  NoDup ks -> nth_error ks i = Some a -> a <> "" ->
  st.(activeSessionId) = Some a -> 1 < length ks ->
  handleKeyDown (mkKeyEvent true true "]") st
    = KSetActive (nth_error ks ((i + 1) mod length ks)) /\
  handleKeyDown (mkKeyEvent true true "[") st
    = KSetActive (nth_error ks ((i + length ks - 1) mod length ks)).
Proof.
  intros ks Hnd Hi Ha Hact Hlen.
  assert (Hin : i < length ks) by (apply nth_error_Some; congruence).
  unfold handleKeyDown; fold ks; cbn [metaKey shiftKey key].
  rewrite Hact, (truthy_nonempty a Ha), (index_of_nth ks i a Hnd Hi).
  replace (Z.ltb 1 (Z.of_nat (length ks))) with true by (symmetry; apply Z.ltb_lt; lia).
  cbn -[Z.rem Z.of_nat length]. split.
  - f_equal. rewrite Z.rem_mod_nonneg by lia.
    replace ((Z.of_nat i + 1) mod Z.of_nat (length ks))%Z
      with (Z.of_nat ((i + 1) mod length ks)) by (rewrite Nat2Z.inj_mod; lia).
    apply js_at_nat.
  - f_equal. destruct i as [|i].
    + cbn [Z.of_nat Z.eqb].
      replace (Z.of_nat (length ks) - 1)%Z with (Z.of_nat (length ks - 1)) by lia.
      rewrite js_at_nat, Nat.mod_small by lia. f_equal; lia.
    + replace (Z.eqb (Z.of_nat (S i)) 0) with false by (symmetry; apply Z.eqb_neq; lia).
      replace (Z.of_nat (S i) - 1)%Z with (Z.of_nat i) by lia.
      rewrite js_at_nat.
      replace (S i + length ks - 1) with (i + 1 * length ks) by lia.
      rewrite Nat.Div0.mod_add, Nat.mod_small by lia. reflexivity.
Qed.

Lemma key_next_prev_witness :
  let st := set_active (Some "b") demo_store in
  NoDup (map_keys st.(sessions)) /\ nth_error (map_keys st.(sessions)) 1 = Some "b" /\
  "b" <> "" /\ st.(activeSessionId) = Some "b" /\ 1 < length (map_keys st.(sessions)) /\
  handleKeyDown (mkKeyEvent true true "]") st
    = KSetActive (nth_error (map_keys st.(sessions)) 2).
Proof.
  cbv zeta.
  assert (H1 : NoDup (map_keys (sessions (set_active (Some "b") demo_store)))).
  { cbn. repeat constructor; cbn; intuition discriminate. }
  assert (H2 : nth_error (map_keys (sessions (set_active (Some "b") demo_store))) 1 = Some "b")
    by reflexivity.
  assert (H3 : "b" <> "") by discriminate.
  assert (H4 : activeSessionId (set_active (Some "b") demo_store) = Some "b") by reflexivity.
  assert (H5 : 1 < length (map_keys (sessions (set_active (Some "b") demo_store))))
    by (cbn; lia).
  do 5 (split; [assumption|]).
  exact (proj1 (key_next_prev (set_active (Some "b") demo_store) 1 "b" H1 H2 H3 H4 H5)).
Defined.

(** X3. When the active id is non-empty but not a registry key (and there are
    at least two sessions), Cmd+Shift+] selects the first session and
    Cmd+Shift+[ sets the selection to [undefined]. *)
Theorem key_nav_unregistered (st : Store) (a : string) :
  let ks := map_keys st.(sessions) in
  ~ In a ks -> a <> "" -> st.(activeSessionId) = Some a -> 1 < length ks ->
  handleKeyDown (mkKeyEvent true true "]") st = KSetActive (hd_error ks) /\
  handleKeyDown (mkKeyEvent true true "[") st = KSetActive None.
Proof.
  intros ks Hn Ha Hact Hlen.
  unfold handleKeyDown; fold ks; cbn [metaKey shiftKey key].
  rewrite Hact, (truthy_nonempty a Ha), (index_of_notin ks a Hn).
  replace (Z.ltb 1 (Z.of_nat (length ks))) with true by (symmetry; apply Z.ltb_lt; lia).
  cbn -[Z.rem Z.of_nat length js_at]. split.
  - reflexivity.
  - reflexivity.
Qed.

Lemma key_nav_unregistered_witness :
  let st := set_active (Some "x") demo_store in
  ~ In "x" (map_keys st.(sessions)) /\ "x" <> "" /\ st.(activeSessionId) = Some "x" /\
  1 < length (map_keys st.(sessions)) /\
  handleKeyDown (mkKeyEvent true true "[") st = KSetActive None.
Proof.
  cbv zeta.
  assert (H1 : ~ In "x" (map_keys (sessions (set_active (Some "x") demo_store))))
    by (cbn; intuition discriminate).
  assert (H2 : "x" <> "") by discriminate.
  assert (H3 : activeSessionId (set_active (Some "x") demo_store) = Some "x") by reflexivity.
  assert (H4 : 1 < length (map_keys (sessions (set_active (Some "x") demo_store))))
    by (cbn; lia).
  do 4 (split; [assumption|]).
  exact (proj2 (key_nav_unregistered (set_active (Some "x") demo_store) "x" H1 H2 H3 H4)).
Defined.

Lemma handleKeyDown_digit (st : Store) (c : string) (k : nat) (shift : bool) :
  String.eqb c "t" = false -> String.eqb c "g" = false -> String.eqb c "w" = false ->
  String.eqb c "]" = false -> String.eqb c "[" = false ->
  str_le "1" c = true -> str_le c "9" = true -> parseInt_digits c = Z.of_nat k ->
  1 <= k ->
  handleKeyDown (mkKeyEvent true shift c) st =
  if k <=? length (map_keys st.(sessions))
  then KSetActive (nth_error (map_keys st.(sessions)) (k - 1))
  else KNone.
Proof.
  intros Ht Hg Hw Hr Hl H1 H9 Hp Hk.
  unfold handleKeyDown; cbn [metaKey shiftKey key].
  rewrite Ht, Hg, Hw, Hr, Hl, H1, H9, Hp.
  destruct shift; cbn [andb].
  all: destruct (Z.ltb_spec (Z.of_nat k - 1) (Z.of_nat (length (map_keys (sessions st))))),
         (Nat.leb_spec k (length (map_keys (sessions st)))); try lia; try reflexivity.
  all: f_equal; replace (Z.of_nat k - 1)%Z with (Z.of_nat (k - 1)) by lia; apply js_at_nat.
Qed.

(** X4. Cmd+1 ... Cmd+9 (with or without Shift) select the [k]-th registry key
    when there are at least [k] sessions, and do nothing otherwise. *)
Theorem key_digit_select (st : Store) (k : nat) (shift : bool) :
  1 <= k <= 9 ->
  handleKeyDown (mkKeyEvent true shift (decimal k)) st =
  if k <=? length (map_keys st.(sessions))
  then KSetActive (nth_error (map_keys st.(sessions)) (k - 1))
  else KNone.
Proof.
  intros Hk.
  assert (Hc : k = 1 \/ k = 2 \/ k = 3 \/ k = 4 \/ k = 5 \/ k = 6 \/ k = 7 \/ k = 8 \/ k = 9)
    by lia.
  repeat destruct Hc as [-> | Hc]; try (subst k);
  apply handleKeyDown_digit; first [reflexivity | lia].
Qed.

Lemma key_digit_select_witness :
  1 <= 2 <= 9 /\
  handleKeyDown (mkKeyEvent true false (decimal 2)) demo_store = KSetActive (Some "b").
Proof.
  assert (H : 1 <= 2 <= 9) by lia.
  split; [exact H|].
  exact (key_digit_select demo_store 2 false H).
Defined.

(** X5. Without the Cmd modifier a keydown changes nothing: no store update,
    no host call. *)
Theorem on_key_no_meta (e : KeyEvent) (w : World) :
  e.(metaKey) = false -> on_key e w = (Some tt, w).
Proof.
  intros H. unfold on_key, bind, get; cbn.
  unfold handleKeyDown; rewrite H; reflexivity.
Qed.

Lemma on_key_no_meta_witness :
  metaKey (mkKeyEvent false false "t") = false /\
  on_key (mkKeyEvent false false "t") (mkWorld demo_store [] []) = (Some tt, mkWorld demo_store [] []).
Proof.
  assert (H : metaKey (mkKeyEvent false false "t") = false) by reflexivity.
  split; [exact H|].
  exact (on_key_no_meta (mkKeyEvent false false "t") (mkWorld demo_store [] []) H).
Defined.

(** ** [getActiveSession] *)

(** X7. Under the reference invariant, [getActiveSession] returns the record
    registered under the active id, and returns [null] exactly when the
    active id is [null] or empty. *)
Theorem getActiveSession_spec (st : Store) :
  ref_inv st ->
  (forall s, getActiveSession st = Some s ->
     st.(activeSessionId) = Some s.(sid) /\ In (s.(sid), s) st.(sessions)) /\
  (getActiveSession st = None <-> truthy st.(activeSessionId) = false).
Proof.
  intros [Ha [_ Hi]]. unfold getActiveSession, active_ok in *.
  destruct (activeSessionId st) as [a|] eqn:Ea; cbn.
  - destruct (String.eqb a "") eqn:Ee; cbn.
    + split; [intros ? ?; discriminate | split; intros; reflexivity].
    + destruct (map_get a (sessions st)) as [s|] eqn:Eg.
      * apply map_get_In in Eg.
        assert (Hs : sid s = a)
          by (unfold ids_ok in Hi; rewrite Forall_forall in Hi; exact (Hi _ Eg)).
        split; [|split; intros ?; discriminate].
        intros s' Hs'; injection Hs' as <-; rewrite Hs; auto.
      * exfalso. apply (map_get_None_notin a (sessions st) Eg Ha).
  - split; [intros ? ?; discriminate | split; intros; reflexivity].
Qed.

Lemma getActiveSession_spec_witness :
  ref_inv demo_store /\
  demo_store.(activeSessionId) = Some "c" /\
  In ("c", demo_session "c" None) demo_store.(sessions).
Proof.
  split; [exact demo_store_ref|].
  exact (proj1 (getActiveSession_spec demo_store demo_store_ref)
           (demo_session "c" None) eq_refl).
Defined.

(** ** The sidebar's session rows *)

Lemma In_insert_by_order (g x : SessionGroup) (l : list SessionGroup) :
  In x (insert_by_order g l) <-> x = g \/ In x l.
Proof.
  induction l as [|h l IH]; cbn; [intuition|].
  destruct (Z.leb (order h) (order g)); cbn; rewrite ?IH; intuition.
Qed.

Lemma In_sort_by_order_acc (x : SessionGroup) (l acc : list SessionGroup) :
  In x (fold_left (fun acc g => insert_by_order g acc) l acc) <-> In x l \/ In x acc.
Proof.
  revert acc; induction l as [|g l IH]; intros acc; cbn; [intuition|].
  rewrite IH, In_insert_by_order; intuition.
Qed.

Lemma In_sort_by_order (x : SessionGroup) (l : list SessionGroup) :
  In x (sort_by_order l) <-> In x l.
Proof. unfold sort_by_order; rewrite In_sort_by_order_acc; cbn; intuition. Qed.

Lemma in_sidebar_iff (st : Store) (s : Session) :
  In s (sidebar_sessions st) <->
  In s (map_values st.(sessions)) /\
  (s.(sgroupId) = None \/
   exists g, In g (map_values st.(groups)) /\ g.(collapsed) = false /\
             s.(sgroupId) = Some g.(gid)).
Proof.
  unfold sidebar_sessions, getSessionsInGroup.
  rewrite in_app_iff, in_flat_map, filter_In.
  split.
  - intros [[g [Hg Hs]] | [Hv He]].
    + destruct (collapsed g) eqn:Ec; [contradiction|].
      apply filter_In in Hs as [Hv He]. apply opt_eqb_true in He.
      rewrite In_sort_by_order in Hg. split; auto. right; exists g; auto.
    + apply opt_eqb_true in He; split; auto.
  - intros [Hv [Hn | [g [Hg [Hc He]]]]].
    + right; split; auto; apply opt_eqb_true; auto.
    + left; exists g; split; [apply In_sort_by_order; auto|].
      rewrite Hc. apply filter_In; split; auto; apply opt_eqb_true; auto.
Qed.

(** X8. A record is a row of the sidebar exactly when it is registered and
    either ungrouped or in a group whose record is present and not
    collapsed. *)
Theorem sidebar_rows (st : Store) (s : Session) :
  In s (sidebar_sessions st) <->
  In s (map_values st.(sessions)) /\
  (s.(sgroupId) = None \/
   exists g, In g (map_values st.(groups)) /\ g.(collapsed) = false /\
             s.(sgroupId) = Some g.(gid)).
Proof. apply in_sidebar_iff. Qed.

(** ** Record updates of the store *)

Lemma map_get_upd {V} (id k : string) (f : V -> V) (m : list (string * V)) :
  map_get k (match map_get id m with Some s => map_set id (f s) m | None => m end)
  = if String.eqb id k then option_map f (map_get k m) else map_get k m.
Proof.
  destruct (map_get id m) as [s|] eqn:E; destruct (String.eqb_spec id k) as [<-|Hne].
  - rewrite map_get_set_eq, E; reflexivity.
  - apply map_get_set_neq; exact Hne.
  - rewrite E; reflexivity.
  - reflexivity.
Qed.

Lemma map_keys_upd {V} (id : string) (f : V -> V) (m : list (string * V)) :
  map fst (match map_get id m with Some s => map_set id (f s) m | None => m end)
  = map fst m.
Proof.
  destruct (map_get id m) as [s|] eqn:E; [|reflexivity].
  unfold map_set, map_has; rewrite E. apply map_keys_replace.
Qed.

Lemma ids_ok_update (id : string) (f : Session -> Session) (m : list (string * Session)) :
  (forall s, (f s).(sid) = s.(sid)) ->
  Forall (fun p => (snd p).(sid) = fst p) m ->
  Forall (fun p => (snd p).(sid) = fst p) (update_session id f m).
Proof.
  intros Hf Hm; unfold update_session.
  destruct (map_get id m) as [s|] eqn:E; [|exact Hm].
  apply ids_ok_set; auto. rewrite Hf. apply map_get_In in E.
  rewrite Forall_forall in Hm; exact (Hm _ E).
Qed.

(** X9. A successful [renameSession] renames the record under [id] (if any),
    leaves every other entry as it was and keeps the registry's keys and
    their order. *)
Theorem renameSession_effect (id name : string) (w : World) (rs : list Reply) :
  replies w = RUnit :: rs ->
  let st := store w in
  let st' := store (snd (renameSession id name w)) in
  fst (renameSession id name w) = Some tt /\
  map_get id st'.(sessions)
    = option_map (fun s => mkSession s.(sid) name s.(sgroupId) s.(shell) s.(status))
                 (map_get id st.(sessions)) /\
  (forall k, k <> id -> map_get k st'.(sessions) = map_get k st.(sessions)) /\
  map_keys st'.(sessions) = map_keys st.(sessions) /\
  st'.(groups) = st.(groups) /\ st'.(activeSessionId) = st.(activeSessionId) /\
  st'.(splitView) = st.(splitView).
Proof.
  intros Hr st st'.
  unfold st', renameSession, bind, host, expect_unit, ret, modify; rewrite Hr; cbn.
  unfold update_session, map_keys; rewrite map_get_upd, String.eqb_refl, map_keys_upd.
  repeat split; auto.
  intros k Hk. rewrite map_get_upd.
  apply String.eqb_neq in Hk; rewrite String.eqb_sym, Hk; reflexivity.
Qed.

Lemma renameSession_effect_witness :
  replies (mkWorld demo_store [RUnit] []) = RUnit :: [] /\
  map_get "a" (store (snd (renameSession "a" "build" (mkWorld demo_store [RUnit] []))))
    .(sessions) = Some (mkSession "a" "build" (Some "g") "/bin/zsh" running).
Proof.
  assert (H : replies (mkWorld demo_store [RUnit] []) = RUnit :: []) by reflexivity.
  split; [exact H|].
  exact (proj1 (proj2 (renameSession_effect "a" "build" (mkWorld demo_store [RUnit] []) [] H))).
Defined.

(** X10. [toggleGroupCollapsed] sets [collapsed] to the value the host returns
    (not to the negation of the local flag), on the group under [id]
    only, keeping the group keys and the sessions. *)
Theorem toggleGroupCollapsed_effect (id : string) (b : bool) (w : World) (rs : list Reply) :
  replies w = RBool b :: rs ->
  let st := store w in
  let st' := store (snd (toggleGroupCollapsed id w)) in
  fst (toggleGroupCollapsed id w) = Some tt /\
  map_get id st'.(groups)
    = option_map (fun g => mkGroup g.(gid) g.(gname) b g.(order)) (map_get id st.(groups)) /\
  (forall k, k <> id -> map_get k st'.(groups) = map_get k st.(groups)) /\
  map_keys st'.(groups) = map_keys st.(groups) /\
  st'.(sessions) = st.(sessions).
Proof.
  intros Hr st st'.
  unfold st', toggleGroupCollapsed, bind, host, expect_bool, ret, modify; rewrite Hr; cbn.
  unfold update_group, map_keys; rewrite map_get_upd, String.eqb_refl, map_keys_upd.
  repeat split; auto.
  intros k Hk. rewrite map_get_upd.
  apply String.eqb_neq in Hk; rewrite String.eqb_sym, Hk; reflexivity.
Qed.

Lemma toggleGroupCollapsed_effect_witness :
  replies (mkWorld demo_store [RBool false] []) = RBool false :: [] /\
  map_get "g" (store (snd (toggleGroupCollapsed "g" (mkWorld demo_store [RBool false] []))))
    .(groups) = Some (mkGroup "g" "G" false 0%Z).
Proof.
  assert (H : replies (mkWorld demo_store [RBool false] []) = RBool false :: []) by reflexivity.
  split; [exact H|].
  exact (proj1 (proj2 (toggleGroupCollapsed_effect "g" false
                         (mkWorld demo_store [RBool false] []) [] H))).
Defined.

(** ** The PTY exit listeners (useTerminal.ts) *)

Lemma map_replace_twice {V} (k : string) (v v' : V) (m : list (string * V)) :
  map_replace k v (map_replace k v' m) = map_replace k v m.
Proof.
  induction m as [|[k' x] m IH]; cbn; auto.
  destruct (String.eqb k' k) eqn:E; cbn; rewrite E; [reflexivity|now rewrite IH].
Qed.

Lemma map_replace_last {V} (k : string) (v v' : V) (m : list (string * V)) :
  ~ In k (map fst m) -> map_replace k v (m ++ [(k, v')]) = m ++ [(k, v)].
Proof.
  induction m as [|[k' x] m IH]; intros Hn; cbn.
  - now rewrite String.eqb_refl.
  - assert (Hk : k' <> k) by (intros ->; apply Hn; left; reflexivity).
    apply String.eqb_neq in Hk; rewrite Hk.
    rewrite IH by (intros H; apply Hn; right; exact H). reflexivity.
Qed.

Lemma map_has_false_notin {V} (k : string) (m : list (string * V)) :
  map_has k m = false -> ~ In k (map fst m).
Proof.
  unfold map_has; destruct (map_get k m) eqn:E; [discriminate|].
  intros _; apply map_get_None_notin; exact E.
Qed.

Lemma map_set_twice {V} (k : string) (v v' : V) (m : list (string * V)) :
  map_set k v (map_set k v' m) = map_set k v m.
Proof.
  unfold map_set at 1, map_has at 1; rewrite map_get_set_eq.
  unfold map_set; destruct (map_has k m) eqn:E.
  - apply map_replace_twice.
  - apply map_replace_last, map_has_false_notin; exact E.
Qed.

Lemma update_session_idem (id : string) (f : Session -> Session) (m : list (string * Session)) :
  (forall s, f (f s) = f s) ->
  update_session id f (update_session id f m) = update_session id f m.
Proof.
  intros Hf. unfold update_session at 2.
  destruct (map_get id m) as [s|] eqn:E.
  - unfold update_session; rewrite map_get_set_eq, Hf, E. apply map_set_twice.
  - unfold update_session; rewrite E; reflexivity.
Qed.

(** X11. An exit event of [exitId] delivered to the listeners of the mounted
    panes: it never calls the host and never fails; if one of the panes
    belongs to [exitId] (however many do), the record under [exitId] is
    marked stopped and nothing else changes, otherwise the store is left
    as it is. *)
Theorem pty_exit_effect (listeners : list string) (exitId : string) (w : World) :
  pty_exit listeners exitId w =
  (Some tt,
   mkWorld (if existsb (String.eqb exitId) listeners
            then set_sessions (update_session exitId
                   (fun s => mkSession s.(sid) s.(sname) s.(sgroupId) s.(shell) stopped)
                   w.(store).(sessions)) w.(store)
            else w.(store))
           w.(replies) w.(log)).
Proof.
  unfold pty_exit. revert w.
  induction listeners as [|s ls IH]; intros [st rs lg]; cbn [for_each existsb].
  - reflexivity.
  - unfold bind at 1, onPtyExit_listener.
    destruct (String.eqb exitId s) eqn:E; cbn [orb].
    + apply String.eqb_eq in E; subst s.
      unfold updateSessionStatus, modify; cbn [store replies log].
      rewrite IH; cbn.
      destruct (existsb (String.eqb exitId) ls); [|reflexivity].
      rewrite update_session_idem by reflexivity. reflexivity.
    + unfold ret; rewrite IH; reflexivity.
Qed.

(** ** Regrouping and the sidebar *)

Lemma In_map_get {V} (k : string) (v : V) (m : list (string * V)) :
  NoDup (map fst m) -> In (k, v) m -> map_get k m = Some v.
Proof.
  induction m as [|[k' x] m IH]; intros Hnd Hin; [destruct Hin|].
  inversion Hnd as [|? ? Hk Hnd']; subst. cbn.
  destruct Hin as [Heq|Hin].
  - injection Heq as -> ->; now rewrite String.eqb_refl.
  - destruct (String.eqb_spec k' k) as [->|]; [|auto].
    exfalso; apply Hk, in_map_iff; exists (k, v); auto.
Qed.

(** X12. With distinct registry keys and every record under its own id, a
    successful [setSessionGroup id (Some g)] to a group id that no group
    record carries keeps the session registered but removes it from the
    sidebar: no row shows a record with id [id]. *)
Theorem setSessionGroup_unknown_hides (id g : string) (w : World) (rs : list Reply) :
  NoDup (map_keys w.(store).(sessions)) -> ids_ok w.(store) ->
  ~ In g (map gid (map_values w.(store).(groups))) ->
  replies w = RUnit :: rs ->
  let st' := store (snd (setSessionGroup id (Some g) w)) in
  map_keys st'.(sessions) = map_keys w.(store).(sessions) /\
  (forall s, In s (sidebar_sessions st') -> s.(sid) <> id).
Proof.
  intros Hnd Hi Hg Hr st'.
  set (f := fun s : Session => mkSession s.(sid) s.(sname) (Some g) s.(shell) s.(status)).
  assert (Hst' : st' = set_sessions (update_session id f w.(store).(sessions)) w.(store)).
  { unfold st', setSessionGroup, bind, host, expect_unit, ret, modify; rewrite Hr; reflexivity. }
  assert (Hkeys : map_keys st'.(sessions) = map_keys w.(store).(sessions)).
  { rewrite Hst'; cbn; unfold update_session, map_keys; apply map_keys_upd. }
  split; [exact Hkeys|].
  intros s Hs Hsid. apply in_sidebar_iff in Hs as [Hv Hvis].
  unfold map_values in Hv; apply in_map_iff in Hv as [[k v] [Hv Hin]]; cbn in Hv; subst v.
  assert (Hi' : Forall (fun p => (snd p).(sid) = fst p) st'.(sessions))
    by (rewrite Hst'; apply ids_ok_update; [reflexivity|exact Hi]).
  rewrite Forall_forall in Hi'; pose proof (Hi' _ Hin) as Hk; cbn in Hk.
  assert (Hnd' : NoDup (map fst st'.(sessions))) by (unfold map_keys in *; congruence).
  pose proof (In_map_get _ _ _ Hnd' Hin) as Hget.
  rewrite Hst' in Hget; cbn in Hget. unfold update_session in Hget.
  rewrite map_get_upd in Hget. rewrite <- Hk, Hsid, String.eqb_refl in Hget.
  destruct (map_get id (sessions (store w))) as [s0|]; cbn in Hget; [|discriminate].
  injection Hget as Hs0. rewrite Hst' in Hvis; cbn in Hvis. subst s.
  destruct Hvis as [Hn | [g' [Hg' [_ He]]]]; cbn in *; [discriminate|].
  injection He as ->. apply Hg, in_map; exact Hg'.
Qed.

Lemma setSessionGroup_unknown_hides_witness :
  NoDup (map_keys demo_store.(sessions)) /\ ids_ok demo_store /\
  ~ In "h" (map gid (map_values demo_store.(groups))) /\
  (forall s, In s (sidebar_sessions (store (snd (setSessionGroup "c" (Some "h")
                                                    (mkWorld demo_store [RUnit] []))))) ->
             s.(sid) <> "c") /\
  sidebar_sessions (store (snd (setSessionGroup "c" (Some "h") (mkWorld demo_store [RUnit] []))))
    = [demo_session "a" (Some "g"); demo_session "b" (Some "g")].
Proof.
  assert (H1 : NoDup (map_keys (sessions (store (mkWorld demo_store [RUnit] [])))))
    by (cbn; repeat constructor; cbn; intuition discriminate).
  assert (H2 : ids_ok (store (mkWorld demo_store [RUnit] []))) by (repeat constructor).
  assert (H3 : ~ In "h" (map gid (map_values (groups (store (mkWorld demo_store [RUnit] []))))))
    by (cbn; intuition discriminate).
  assert (H4 : replies (mkWorld demo_store [RUnit] []) = RUnit :: []) by reflexivity.
  split; [exact H1|]. split; [exact H2|]. split; [exact H3|]. split; [|reflexivity].
  exact (proj2 (setSessionGroup_unknown_hides "c" "h" (mkWorld demo_store [RUnit] []) []
                  H1 H2 H3 H4)).
Defined.

Lemma In_ungroup_members (id : string) (s : Session) (m : list (string * Session)) :
  In s (map_values m) -> s.(sgroupId) = Some id ->
  In (ungroup s) (map_values (ungroup_members id m)).
Proof.
  unfold map_values, ungroup_members; rewrite map_map; intros Hs He.
  apply in_map_iff in Hs as [[k v] [Hv Hin]]; cbn in Hv; subst v.
  apply in_map_iff; exists (k, s); split; auto; cbn.
  rewrite He; cbn; now rewrite String.eqb_refl.
Qed.

(** X13. With distinct registry keys and every record under its own id, after a
    successful [deleteGroup id] every former member of the group is shown
    in the sidebar as an ungrouped session (its record with [groupId]
    cleared). *)
Theorem deleteGroup_members_ungrouped (id : string) (st : Store) (rs : list Reply)
    (lg : list Cmd) :
  NoDup (map_keys st.(sessions)) -> ids_ok st ->
  let members := getSessionsInGroup (Some id) st in
  let st' := store (snd (deleteGroup id
               (mkWorld st (repeat RUnit (S (length members)) ++ rs) lg))) in
  forall s, In s members ->
    In (ungroup s) (sidebar_sessions st') /\ (ungroup s).(sgroupId) = None.
Proof.
  intros Hnd Hi members st' s Hs.
  assert (Hst' : st' = mkStore (ungroup_members id st.(sessions))
                             (map_delete id st.(groups)) st.(activeSessionId)
                             st.(isLoading) st.(splitView)).
  { unfold st', members; rewrite (deleteGroup_success id st rs lg Hnd Hi); reflexivity. }
  unfold members, getSessionsInGroup in Hs; apply filter_In in Hs as [Hv He].
  apply opt_eqb_true in He.
  split; [|reflexivity].
  apply in_sidebar_iff; split; [|left; reflexivity].
  rewrite Hst'; cbn. apply In_ungroup_members; assumption.
Qed.

Lemma deleteGroup_members_ungrouped_witness :
  NoDup (map_keys demo_store.(sessions)) /\ ids_ok demo_store /\
  In (ungroup (demo_session "a" (Some "g")))
     (sidebar_sessions (store (snd (deleteGroup "g"
        (mkWorld demo_store [RUnit; RUnit; RUnit] []))))).
Proof.
  assert (H1 : NoDup (map_keys (sessions demo_store)))
    by (cbn; repeat constructor; cbn; intuition discriminate).
  assert (H2 : ids_ok demo_store) by (repeat constructor).
  split; [exact H1|]. split; [exact H2|].
  exact (proj1 (deleteGroup_members_ungrouped "g" demo_store [] [] H1 H2
                  (demo_session "a" (Some "g")) (or_introl eq_refl))).
Defined.

(** ** Creating and deleting a session *)

Lemma map_delete_notin {V} (k : string) (m : list (string * V)) :
  ~ In k (map fst m) -> map_delete k m = m.
Proof.
  unfold map_delete.
  induction m as [|[k' x] m IH]; intros Hn; cbn; auto.
  assert (Hk : k' <> k) by (intros ->; apply Hn; left; reflexivity).
  apply String.eqb_neq in Hk; rewrite Hk; cbn.
  rewrite IH by (intros H; apply Hn; right; exact H). reflexivity.
Qed.

Lemma map_delete_last {V} (k : string) (v : V) (m : list (string * V)) :
  ~ In k (map fst m) -> map_delete k (m ++ [(k, v)]) = m.
Proof.
  intros Hn. unfold map_delete; rewrite filter_app; cbn; rewrite String.eqb_refl; cbn.
  rewrite app_nil_r. fold (map_delete k m). apply map_delete_notin; exact Hn.
Qed.

(** X14. Creating a session whose id is fresh and then deleting it (both host
    calls succeeding) gives back the registry as it was, in the same
    order, and the groups; the active selection ends on the first
    remaining session, or [null] when there is none. *)
Theorem create_then_delete (name : string) (g : option string) (info : SessionInfo)
    (w : World) (rs : list Reply) :
  ~ In info.(info_id) (map_keys w.(store).(sessions)) ->
  replies w = RSessionInfo info :: RUnit :: rs ->
  let w' := snd ((createSession name g ;;; deleteSession info.(info_id)) w) in
  w'.(store).(sessions) = w.(store).(sessions) /\
  w'.(store).(groups) = w.(store).(groups) /\
  w'.(store).(activeSessionId) = hd_error (map_keys w.(store).(sessions)) /\
  w'.(log) = w.(log) ++ [CCreateSession name None g; CDeleteSession info.(info_id)].
Proof.
  intros Hn Hr w'.
  destruct w as [st rs0 lg]; cbn in Hr, Hn; subst rs0.
  unfold w', createSession, deleteSession, bind, host, expect_info, expect_unit, ret, modify.
  cbn -[map_set delete_update].
  unfold map_set, map_has.
  rewrite (notin_map_get_None _ _ Hn).
  unfold delete_update; cbn -[map_delete].
  rewrite (map_delete_last _ _ _ Hn), String.eqb_refl, <- app_assoc.
  repeat split; auto.
Qed.

Lemma create_then_delete_witness :
  let info := mkInfo "d" "Terminal 4" None "/bin/zsh" "/tmp" Running in
  ~ In "d" (map_keys demo_store.(sessions)) /\
  (snd ((createSession "Terminal 4" None ;;; deleteSession "d")
        (mkWorld demo_store [RSessionInfo info; RUnit] []))).(store).(sessions)
    = demo_store.(sessions).
Proof.
  cbv zeta.
  assert (H1 : ~ In (info_id (mkInfo "d" "Terminal 4" None "/bin/zsh" "/tmp" Running))
                    (map_keys (mkWorld demo_store
                       [RSessionInfo (mkInfo "d" "Terminal 4" None "/bin/zsh" "/tmp" Running);
                        RUnit] []).(store).(sessions)))
    by (cbn; intuition discriminate).
  assert (H2 : replies (mkWorld demo_store
                 [RSessionInfo (mkInfo "d" "Terminal 4" None "/bin/zsh" "/tmp" Running); RUnit] [])
               = RSessionInfo (mkInfo "d" "Terminal 4" None "/bin/zsh" "/tmp" Running)
                 :: RUnit :: []) by reflexivity.
  split; [exact H1|].
  exact (proj1 (create_then_delete "Terminal 4" None
                  (mkInfo "d" "Terminal 4" None "/bin/zsh" "/tmp" Running)
                  (mkWorld demo_store
                     [RSessionInfo (mkInfo "d" "Terminal 4" None "/bin/zsh" "/tmp" Running);
                      RUnit] []) [] H1 H2)).
Defined.

(** ** Distinct registry keys and distinct split members *)

Lemma NoDup_map_filter {X Y} (g : X -> Y) (keep : X -> bool) (xs : list X) :
  NoDup (map g xs) -> NoDup (map g (filter keep xs)).
Proof.
  intros Hnd; induction xs as [|x xs IH]; [constructor|].
  cbn in Hnd |- *; inversion Hnd as [|? ? Hx Hnd']; subst.
  destruct (keep x); [cbn; constructor|]; auto.
  rewrite in_map_iff; intros [y [Hy Hin]]; apply Hx.
  rewrite filter_In in Hin; rewrite <- Hy; apply in_map, Hin.
Qed.

Lemma NoDup_keys_set {V} (k : string) (v : V) (m : list (string * V)) :
  NoDup (map_keys m) -> NoDup (map_keys (map_set k v m)).
Proof.
  intros Hnd; unfold map_set; destruct (map_has k m) eqn:E.
  - rewrite map_keys_replace; exact Hnd.
  - unfold map_keys in *; rewrite map_app; cbn.
    apply (Permutation_NoDup (Permutation_cons_append (map fst m) k)).
    constructor; auto. apply map_has_false_notin; exact E.
Qed.

Lemma nodup_set_session (k : string) (s : Session) (st : Store) :
  s.(sid) = k -> nodup_inv st ->
  nodup_inv (set_sessions (map_set k s st.(sessions)) st).
Proof.
  intros Hk [Hnd [Hi Hs]]; split; [|split]; auto.
  - apply NoDup_keys_set; exact Hnd.
  - apply ids_ok_set; auto.
Qed.

Lemma nodup_update (id : string) (f : Session -> Session) (st : Store) :
  (forall s, (f s).(sid) = s.(sid)) -> nodup_inv st ->
  nodup_inv (set_sessions (update_session id f st.(sessions)) st).
Proof.
  intros Hf [Hnd [Hi Hs]]; split; [|split]; auto.
  - unfold set_sessions, map_keys, update_session in *; cbn [sessions].
    rewrite map_keys_upd; exact Hnd.
  - apply ids_ok_update; auto.
Qed.

Lemma nodup_delete (id : string) (st : Store) :
  nodup_inv st -> nodup_inv (delete_update id st).
Proof.
  intros [Hnd [Hi Hs]]; unfold nodup_inv, delete_update; cbv zeta; cbn.
  split; [|split].
  - unfold map_keys, map_delete in *; apply NoDup_map_filter; exact Hnd.
  - apply Forall_filter_sub; exact Hi.
  - match goal with |- context [if ?b then _ else _] => destruct b end;
      cbn; [constructor|].
    apply NoDup_filter; exact Hs.
Qed.

Lemma NoDup_group_ids (g : option string) (st : Store) :
  NoDup (map_keys st.(sessions)) -> ids_ok st ->
  NoDup (map sid (getSessionsInGroup g st)).
Proof.
  intros Hnd Hi. unfold getSessionsInGroup. apply NoDup_map_filter.
  replace (map sid (map_values (sessions st))) with (map_keys (sessions st)); [exact Hnd|].
  unfold map_keys, map_values; rewrite map_map; apply map_ext_in.
  intros p Hp; unfold ids_ok in Hi; rewrite Forall_forall in Hi; symmetry; exact (Hi p Hp).
Qed.

Lemma restore_loop_nodup (saved : list SessionInfo) (first : option string) :
  preserves nodup_inv (restore_loop saved first).
Proof.
  revert first; induction saved as [|s saved IH]; intros first; cbn.
  - apply pres_ret.
  - apply pres_bind; [|intros; apply IH].
    unfold restore_one; pres; try assumption.
    apply nodup_set_session; [reflexivity|assumption].
Qed.

Lemma nodup_set_active (a : option string) (st : Store) :
  nodup_inv st -> nodup_inv (set_active a st).
Proof. intros H; exact H. Qed.

Lemma nodup_set_groups (m : list (string * SessionGroup)) (st : Store) :
  nodup_inv st -> nodup_inv (set_groups m st).
Proof. intros H; exact H. Qed.

Lemma nodup_set_loading (b : bool) (st : Store) :
  nodup_inv st -> nodup_inv (set_loading b st).
Proof. intros H; exact H. Qed.

Lemma action_nodup (op : Op) (w : World) :
  nodup_inv (store w) -> nodup_arg op -> nodup_inv (store (exec_op op w)).
Proof.
  intros Hw Harg; unfold exec_op.
  destruct op; cbn [action].
  all: try (apply (pres_apply nodup_inv); [|exact Hw];
    unfold createSession, deleteSession, renameSession, updateSessionStatus,
      deleteGroup, setSessionGroup, createGroup, renameGroup, toggleGroupCollapsed,
      saveLayout, loadLayout; pres;
    try apply restore_loop_nodup;
    repeat first [ apply nodup_set_active | apply nodup_set_groups | apply nodup_set_loading ];
    first [ exact Hst
          | apply nodup_set_session; [reflexivity|exact Hst]
          | apply nodup_update; [intros; reflexivity|exact Hst]
          | apply nodup_delete; exact Hst ]; fail).
  all: unfold setActiveSession, enableSplitView, disableSplitView,
    addToSplit, removeFromSplit, setSplitDirection, splitGroup,
    bind, get, modify, fire, ret in *.
  all: destruct w as [[ss gs act ld [en sids sdir]] rs lg];
    unfold nodup_inv, nodup_arg, ids_ok in *; cbn -[filter getSessionsInGroup] in *.
  all: destruct Hw as [Hk [Hi Hs]]; split_cases; cbn -[filter getSessionsInGroup] in *.
  all: split; [|split]; auto.
  all: try constructor.
  all: try (apply NoDup_filter; exact Hs).
  all: try (exact (NoDup_group_ids (Some groupId) (mkStore ss gs act ld (mkSplitView en sids sdir)) Hk Hi)).
  - match goal with H : _ && negb (String.eqb _ _) = true |- _ =>
      apply andb_prop in H as [_ H]; apply negb_true_iff in H end.
    intros [Heq|[]]; subst; now rewrite String.eqb_refl in *.
  - constructor; [intros []|constructor].
  - apply (Permutation_NoDup (Permutation_cons_append sids id)); constructor; auto.
    intros Hin.
    match goal with H : existsb ?f _ = false |- _ =>
      assert (Ht : existsb f sids = true)
        by (apply existsb_exists; exists id; split; [exact Hin|apply String.eqb_refl]);
      congruence end.
Qed.

(** X15. Registry keys stay distinct, every record stays under its own id and
    the split view never lists a session twice, through any sequence of
    store actions in which [enableSplitView] is only given distinct ids. *)
Theorem run_ops_nodup (ops : list Op) (w : World) :
  nodup_inv (store w) -> nodup_ops ops -> nodup_inv (store (run_ops ops w)).
Proof.
  revert w; induction ops as [|op ops IH]; intros w Hw Hops; cbn in *; auto.
  destruct Hops as [Hop Hops]. apply IH; auto. apply action_nodup; auto.
Qed.

Lemma run_ops_nodup_witness :
  nodup_inv demo_store /\ nodup_ops [OAddToSplit "a"; OAddToSplit "b"; OAddToSplit "a"] /\
  nodup_inv (store (run_ops [OAddToSplit "a"; OAddToSplit "b"; OAddToSplit "a"]
                     (mkWorld demo_store [] []))) /\
  (store (run_ops [OAddToSplit "a"; OAddToSplit "b"; OAddToSplit "a"]
            (mkWorld demo_store [] []))).(splitView).(sessionIds) = ["c"; "a"; "b"].
Proof.
  assert (H1 : nodup_inv (store (mkWorld demo_store [] []))).
  { split; [|split]; cbn.
    - repeat constructor; cbn; intuition discriminate.
    - repeat constructor.
    - constructor. }
  assert (H2 : nodup_ops [OAddToSplit "a"; OAddToSplit "b"; OAddToSplit "a"])
    by (cbn; auto).
  split; [exact H1|]. split; [exact H2|]. split; [|reflexivity].
  exact (run_ops_nodup _ _ H1 H2).
Defined.

(** ** The sidebar width *)

(** X18. The sidebar width set while dragging its edge always lies in
    [180, 400], and is the pointer position itself when that lies in the
    range. *)
Theorem sidebarWidth_bounds (clientX : Q) :
  (180 # 1 <= sidebarWidth_of clientX <= 400 # 1)%Q /\
  ((180 # 1 <= clientX <= 400 # 1)%Q -> (sidebarWidth_of clientX == clientX)%Q).
Proof.
  unfold sidebarWidth_of, qmax, qmin.
  destruct (Qle_bool (400 # 1) clientX) eqn:E1; cbv iota.
  all: match goal with
       | |- context [Qle_bool ?a ?b] => destruct (Qle_bool a b) eqn:E2
       end.
  all: repeat match goal with
         | H : Qle_bool _ _ = true |- _ => apply Qle_bool_iff in H
         | H : Qle_bool ?a ?b = false |- _ =>
             assert (~ (a <= b)%Q) by (rewrite <- Qle_bool_iff; congruence); clear H
         end.
  all: split; [split|intros [? ?]]; lra.
Qed.

Lemma sidebarWidth_bounds_witness :
  (180 # 1 <= 250 # 1 <= 400 # 1)%Q /\ (sidebarWidth_of (250 # 1) == 250 # 1)%Q.
Proof.
  assert (H : (180 # 1 <= 250 # 1 <= 400 # 1)%Q) by (split; vm_compute; discriminate).
  split; [exact H|]. exact (proj2 (sidebarWidth_bounds (250 # 1)) H).
Defined.

(** ** Cmd+T *)

(** X6. Cmd+T asks the host for a session named [Terminal <n+1>], [n] the
    number of registry entries, with no working directory and no group;
    when the host answers, the returned session is registered under its
    id and becomes the active selection. *)
Theorem key_new_session (shift : bool) (info : SessionInfo) (w : World) (rs : list Reply) :
  replies w = RSessionInfo info :: rs ->
  let w' := snd (on_key (mkKeyEvent true shift "t") w) in
  w'.(log) = w.(log) ++
    [CCreateSession ("Terminal " ++ decimal (length w.(store).(sessions) + 1)) None None] /\
  map_get info.(info_id) w'.(store).(sessions) = Some (session_of_info info) /\
  w'.(store).(activeSessionId) = Some info.(info_id).
Proof.
  intros Hr w'. destruct w as [st rs0 lg]; cbn in Hr; subst rs0.
  unfold w', on_key, bind, get; cbn -[decimal map_set].
  split; [reflexivity|]. split; [apply map_get_set_eq|reflexivity].
Qed.

Lemma key_new_session_witness :
  let info := mkInfo "d" "Terminal 4" None "/bin/zsh" "/tmp" Running in
  replies (mkWorld demo_store [RSessionInfo info] []) = RSessionInfo info :: [] /\
  (snd (on_key (mkKeyEvent true false "t") (mkWorld demo_store [RSessionInfo info] []))).(log)
    = [CCreateSession "Terminal 4" None None].
Proof.
  cbv zeta.
  assert (H : replies (mkWorld demo_store
                [RSessionInfo (mkInfo "d" "Terminal 4" None "/bin/zsh" "/tmp" Running)] [])
              = RSessionInfo (mkInfo "d" "Terminal 4" None "/bin/zsh" "/tmp" Running) :: [])
    by reflexivity.
  split; [exact H|].
  exact (proj1 (key_new_session false (mkInfo "d" "Terminal 4" None "/bin/zsh" "/tmp" Running)
                  (mkWorld demo_store
                     [RSessionInfo (mkInfo "d" "Terminal 4" None "/bin/zsh" "/tmp" Running)] [])
                  [] H)).
Defined.
